(** * Service generator: convention parser, record extractor and orchestrator

    A shallow embedding of [lib/service-gen.go] (the variant with record
    schemas and definition documents).  The Go syntax trees the generator
    walks are modelled as inductive data, Go's [error] results and run-time
    panics as an explicit outcome type, [map[string][]Field] as a [gmap], and
    what a run does to the file system as an explicit log: the files it
    writes, the folders it makes, and the folders it hands to [goimports]. *)

From Stdlib Require Import ZArith String Ascii List Bool Lia.
From Stdlib Require Import DecimalString HexadecimalString.
From stdpp Require Import base option list strings gmap.

Set Warnings "-clear-no-such-hyp".
Local Open Scope stdpp_scope.
Local Open Scope Z_scope.

(** ** Outcomes: a value, a returned [error], or a run-time panic *)

Inductive Outcome (A : Type) : Type :=
| Ok (a : A)
| Err (msg : string)
| Panic (msg : string).
Arguments Ok {A} a.
Arguments Err {A} msg.
Arguments Panic {A} msg.

Definition bindO {A B : Type} (o : Outcome A) (k : A -> Outcome B) : Outcome B :=
  match o with
  | Ok a => k a
  | Err e => Err e
  | Panic p => Panic p
  end.

#[global] Instance Outcome_ret : MRet Outcome := fun A a => Ok a.
#[global] Instance Outcome_bind : MBind Outcome := fun A B k o => bindO o k.

Definition isOk {A : Type} (o : Outcome A) : bool :=
  match o with Ok _ => true | _ => false end.

(** ** The parts of Go's [strings], [unicode] and [fmt] the generator uses *)

Module GoStrings.

Definition byteN (c : ascii) : N := N_of_ascii c.

Definition inRange (lo hi : N) (c : ascii) : bool :=
  (N.leb lo (byteN c) && N.leb (byteN c) hi)%bool.

(** [unicode.IsLower(rune(b))] for a single byte [b]: the rune is in
    Latin-1, where the lower-case letters are a-z, U+00B5, U+00DF-U+00F6
    and U+00F8-U+00FF. *)
Definition IsLower (c : ascii) : bool :=
  (inRange 97 122 c || N.eqb (byteN c) 181
   || inRange 223 246 c || inRange 248 255 c)%bool.

Definition isASCII (c : ascii) : bool := N.ltb (byteN c) 128.

Fixpoint allASCII (s : string) : bool :=
  match s with
  | EmptyString => true
  | String c s' => (isASCII c && allASCII s')%bool
  end.

Definition lowerByte (c : ascii) : ascii :=
  if inRange 65 90 c then ascii_of_N (byteN c + 32) else c.

Definition upperByte (c : ascii) : ascii :=
  if inRange 97 122 c then ascii_of_N (byteN c - 32) else c.

Fixpoint mapBytes (f : ascii -> ascii) (s : string) : string :=
  match s with
  | EmptyString => EmptyString
  | String c s' => String (f c) (mapBytes f s')
  end.

Fixpoint HasPrefix (s p : string) : bool :=
  match p, s with
  | EmptyString, _ => true
  | String _ _, EmptyString => false
  | String b p', String a s' => (Ascii.eqb a b && HasPrefix s' p')%bool
  end.

Definition HasSuffix (s suf : string) : bool :=
  HasPrefix (String.rev s) (String.rev suf).

Fixpoint trimLeftByte (q : ascii) (s : string) : string :=
  match s with
  | EmptyString => EmptyString
  | String c s' => if Ascii.eqb c q then trimLeftByte q s' else s
  end.

(** [strings.Trim(s, cutset)] for a cutset of one byte. *)
Definition Trim1 (s : string) (q : ascii) : string :=
  String.rev (trimLeftByte q (String.rev (trimLeftByte q s))).

(** [strings.Split(s, sep)] for a separator of one byte. *)
Fixpoint splitGo (sep : ascii) (cur : string) (s : string) : list string :=
  match s with
  | EmptyString => [String.rev cur]
  | String c s' =>
      if Ascii.eqb c sep then String.rev cur :: splitGo sep EmptyString s'
      else splitGo sep (String c cur) s'
  end.

Definition Split1 (s : string) (sep : ascii) : list string :=
  splitGo sep EmptyString s.

Definition Join (l : list string) : string :=
  fold_right String.append EmptyString l.

(** [strings.Join(l, sep)]. *)
Fixpoint JoinSep (sep : string) (l : list string) : string :=
  match l with
  | [] => EmptyString
  | [x] => x
  | x :: l' => x +:+ sep +:+ JoinSep sep l'
  end.

(** The substring relation, used to say that a message names something. *)
Definition mentions (msg name : string) : Prop :=
  exists pre post, msg = pre +:+ name +:+ post.

Fixpoint containsByte (q : ascii) (s : string) : bool :=
  match s with
  | EmptyString => false
  | String c s' => (Ascii.eqb c q || containsByte q s')%bool
  end.

(** Decimal rendering of an [int] ([%v] / [%d]). *)
Definition decimal (z : Z) : string :=
  DecimalString.NilZero.string_of_int (Z.to_int z).

(** [utf8.DecodeRuneInString(s)], the rune only: the code point the first
    bytes of [s] encode, and U+FFFD when [s] is empty or does not start
    with a well-formed encoding.  The bounds on the second byte are those
    of the package's [acceptRanges]. *)
Definition RuneError : Z := 65533.

Definition byteZ (c : ascii) : Z := Z.of_N (byteN c).

Definition continues (b : Z) : bool := ((128 <=? b) && (b <=? 191))%bool.

Definition DecodeRune (s : string) : Z :=
  match s with
  | EmptyString => RuneError
  | String c0 s1 =>
      let s0 := byteZ c0 in
      if s0 <? 128 then s0
      else if ((s0 <? 194) || (244 <? s0))%bool then RuneError
      else
        match s1 with
        | EmptyString => RuneError
        | String c1 s2 =>
            let b1 := byteZ c1 in
            let lo := if s0 =? 224 then 160 else if s0 =? 240 then 144
                      else 128 in
            let hi := if s0 =? 237 then 159 else if s0 =? 244 then 143
                      else 191 in
            if ((b1 <? lo) || (hi <? b1))%bool then RuneError
            else if s0 <? 224 then
              Z.lor (Z.shiftl (Z.land s0 31) 6) (Z.land b1 63)
            else
              match s2 with
              | EmptyString => RuneError
              | String c2 s3 =>
                  let b2 := byteZ c2 in
                  if negb (continues b2) then RuneError
                  else if s0 <? 240 then
                    Z.lor (Z.lor (Z.shiftl (Z.land s0 15) 12)
                                 (Z.shiftl (Z.land b1 63) 6))
                          (Z.land b2 63)
                  else
                    match s3 with
                    | EmptyString => RuneError
                    | String c3 _ =>
                        let b3 := byteZ c3 in
                        if negb (continues b3) then RuneError
                        else
                          Z.lor (Z.lor (Z.lor (Z.shiftl (Z.land s0 7) 18)
                                              (Z.shiftl (Z.land b1 63) 12))
                                       (Z.shiftl (Z.land b2 63) 6))
                                (Z.land b3 63)
                    end
              end
        end
  end.

(** The upper-case letters of Latin-1: A-Z, U+00C0-U+00D6 and
    U+00D8-U+00DE. *)
Definition latin1Upper (r : Z) : bool :=
  ((65 <=? r) && (r <=? 90) || (192 <=? r) && (r <=? 214)
   || (216 <=? r) && (r <=? 222))%bool.

(** [0x]-prefixed lower-case hexadecimal rendering of a pointer. *)
Definition hexPointer (a : Z) : string :=
  "0x" +:+ HexadecimalString.NilZero.string_of_uint (N.to_hex_uint (Z.to_N a)).

End GoStrings.
Import GoStrings.

(** ** Syntax trees ([go/ast]) *)

(** Type expressions.  [token.Pos] fields are kept because [fmt] prints
    them; [Sel] is the name of the selector's identifier.  [OtherExpr]
    stands for every node kind the generator does not look into (function,
    interface and channel types, ...), carried with its source text and its
    top-level [%v] rendering. *)
#[local] Unset Elimination Schemes.
Inductive Expr : Type :=
| Ident (NamePos : Z) (Name : string)
| SelectorExpr (X : Expr) (Sel : string)
| StarExpr (Star : Z) (X : Expr)
| ArrayType (Lbrack : Z) (Len : option Expr) (Elt : Expr)
| MapType (Map : Z) (Key : Expr) (Value : Expr)
| StructType (Struct : Z) (Fields : list AstField) (Incomplete : bool)
| OtherExpr (text : string) (dump : string)
with AstField : Type :=
| mkAstField (Names : list string) (Type_ : Expr).
#[local] Set Elimination Schemes.

Definition fieldNames (f : AstField) : list string :=
  match f with mkAstField ns _ => ns end.

Definition fieldType (f : AstField) : Expr :=
  match f with mkAstField _ t => t end.

(** [*ast.FieldList]: [None] is the nil pointer. *)
Definition FieldList : Type := option (list AstField).

Record FuncType : Type := mkFuncType {
  Params : FieldList;
  Results : FieldList
}.

Record FuncDecl : Type := mkFuncDecl {
  Recv : FieldList;
  fnName : string;
  fnType : FuncType
}.

Inductive Token : Type := IMPORT | CONST | TYPE | VAR.

Inductive Spec : Type :=
| ImportSpec (path : string)
| ValueSpec
| TypeSpec (Name : string) (Type_ : Expr).

Record GenDecl : Type := mkGenDecl {
  Tok : Token;
  Specs : list Spec
}.

Inductive Decl : Type :=
| FuncD (fn : FuncDecl)
| GenD (g : GenDecl)
| BadD.

(** [*ast.File]: [Imports] holds the [Path.Value] literal of each import,
    quotes included. *)
Record File : Type := mkFile {
  Imports : list string;
  Decls : list Decl
}.

(** One call of the walk callback: the error the walk hands over, the entry's
    name and path, whether it is a directory, and what [parser.ParseFile]
    returns for it. *)
Record WalkEntry : Type := mkWalkEntry {
  weErr : option string;
  weName : string;
  wePath : string;
  weIsDir : bool;
  weParse : string + File
}.

(** ** The records the generator builds *)

Record Field : Type := mkField {
  Name : string;
  Type' : string
}.

Record MethodInfo : Type := mkMethodInfo {
  OriginalName : string;
  mName : string;
  InputType : string;
  IsInputPointer : bool;
  InputSchema : list Field;
  OutputType : string;
  IsOutputPointer : bool;
  OutputSchema : list Field;
  IsWorkflow : bool;
  IsService : bool
}.

Record ServiceInfo : Type := mkServiceInfo {
  ModuleName : string;
  ServiceName : string;
  ServiceStructName : string;
  Methods : list MethodInfo;
  IsProduction : bool;
  sImports : list string
}.

(** ** [fmt.Sprint] on a type expression *)

(** Where the nodes of one parse live: [fmt] prints the address of a nested
    node that has no [String] method. *)
Record Heap : Type := mkHeap {
  addrExpr : Expr -> Z;
  addrFieldList : list AstField -> Z
}.

Module Fmt.

Definition boolString (b : bool) : string :=
  if b then "true" else "false".

(** A value met below the top level: an identifier prints through its
    [String] method, any other node is a pointer and prints as an address. *)
Definition nested (h : Heap) (e : Expr) : string :=
  match e with
  | Ident _ n => n
  | _ => hexPointer (addrExpr h e)
  end.

Definition nestedOpt (h : Heap) (o : option Expr) : string :=
  match o with
  | None => "<nil>"
  | Some e => nested h e
  end.

Definition Sprint (h : Heap) (e : Expr) : string :=
  match e with
  | Ident _ n => n
  | SelectorExpr X Sel =>
      "&{" +:+ nested h X +:+ " " +:+ Sel +:+ "}"
  | StarExpr star X =>
      "&{" +:+ decimal star +:+ " " +:+ nested h X +:+ "}"
  | ArrayType lb len elt =>
      "&{" +:+ decimal lb +:+ " " +:+ nestedOpt h len +:+ " "
           +:+ nested h elt +:+ "}"
  | MapType mp k v =>
      "&{" +:+ decimal mp +:+ " " +:+ nested h k +:+ " "
           +:+ nested h v +:+ "}"
  | StructType st fs inc =>
      "&{" +:+ decimal st +:+ " " +:+ hexPointer (addrFieldList h fs)
           +:+ " " +:+ boolString inc +:+ "}"
  | OtherExpr _ dump => dump
  end.

End Fmt.

(** The source text of a type expression, as the specification words it
    ("the literal textual form of the field's type expression"), in the
    layout [gofmt] gives it. *)
Fixpoint sourceText (e : Expr) : string :=
  match e with
  | Ident _ n => n
  | SelectorExpr X Sel => sourceText X +:+ "." +:+ Sel
  | StarExpr _ X => "*" +:+ sourceText X
  | ArrayType _ None elt => "[]" +:+ sourceText elt
  | ArrayType _ (Some n) elt =>
      "[" +:+ sourceText n +:+ "]" +:+ sourceText elt
  | MapType _ k v => "map[" +:+ sourceText k +:+ "]" +:+ sourceText v
  | StructType _ fs _ =>
      "struct{" +:+
      JoinSep "; "
        ((fix fieldsText (l : list AstField) : list string :=
            match l with
            | [] => []
            | mkAstField ns t :: l' =>
                match ns with
                | [] => sourceText t
                | _ :: _ => JoinSep ", " ns +:+ " " +:+ sourceText t
                end :: fieldsText l'
            end) fs) +:+ "}"
  | OtherExpr text _ => text
  end.

(** ** The generator *)

Definition dquote : ascii := ascii_of_N 34.

(** [string(b)] for a byte [b]: the UTF-8 encoding of the rune U+00[b]. *)
Definition runeString (c : ascii) : string :=
  if isASCII c then String c EmptyString
  else String (ascii_of_N (192 + N.shiftr (byteN c) 6))
         (String (ascii_of_N (128 + N.land (byteN c) 63)) EmptyString).

(** ** Output: what a run does to the file system *)

(** [written] holds path and bytes of every [os.WriteFile], [madeDirs] the
    path of every [os.MkdirAll], [goimported] the argument of every
    [goimports -w], the command that rewrites in place the Go files it
    finds there; each in the order of the calls. *)
Record World : Type := mkWorld {
  written : list (string * string);
  madeDirs : list string;
  goimported : list string
}.

Definition emptyWorld : World :=
  {| written := []; madeDirs := []; goimported := [] |}.

Definition M (A : Type) : Type := World -> Outcome A * World.

Definition retM {A : Type} (a : A) : M A := fun w => (Ok a, w).

Definition bindM {A B : Type} (c : M A) (k : A -> M B) : M B :=
  fun w =>
    match c w with
    | (Ok a, w') => k a w'
    | (Err e, w') => (Err e, w')
    | (Panic p, w') => (Panic p, w')
    end.

Definition liftO {A : Type} (o : Outcome A) : M A := fun w => (o, w).

Notation "x <~ c ; k" := (bindM c (fun x => k))
  (at level 20, c at level 100, k at level 200, only parsing).

Section Generator.

(** [strings.Map(unicode.ToLower, s)] and [strings.Map(unicode.ToUpper, s)],
    the path [strings.ToLower] and [strings.ToUpper] take on a string that
    is not pure ASCII. *)
Variable unicodeLower : string -> string.
Variable unicodeUpper : string -> string.

(** Executing the parsed wrapper template on a service model
    ([text/template]) and [yaml.Marshal] of it. *)
Variable executeTemplate : ServiceInfo -> Outcome string.
Variable yamlMarshal : ServiceInfo -> Outcome string.

(** The environment's answers to [os.MkdirAll], [os.WriteFile] and the
    [goimports] command: [None] is success. *)
Variable mkdirAllErr : string -> option string.
Variable writeFileErr : string -> option string.
Variable goimportsErr : string -> option string.

Definition ToLower (s : string) : string :=
  if allASCII s then mapBytes lowerByte s else unicodeLower s.

Definition ToUpper (s : string) : string :=
  if allASCII s then mapBytes upperByte s else unicodeUpper s.

Definition notEnoughParams (name : string) : string :=
  "function " +:+ name +:+ " does not have enough parameters".

Definition badFirstParam (name : string) : string :=
  "function " +:+ name +:+
  ": first parameter must be polycode.ServiceContext or polycode.WorkflowContext".

Definition notAnIdent : string :=
  "interface conversion: ast.Expr is not *ast.Ident".
Definition nilDereference : string :=
  "invalid memory address or nil pointer dereference".
Definition indexOutOfRange : string := "index out of range".

(** The unchecked type assertion of [e] to an identifier, then its [Name]. *)
Definition identName (e : Expr) : Outcome string :=
  match e with
  | Ident _ n => Ok n
  | _ => Panic notAnIdent
  end.

Definition validateFunctionParams (fn : FuncDecl) : Outcome string :=
  match Params (fnType fn) with
  | None => Err (notEnoughParams (fnName fn))
  | Some params =>
      if (length params <? 2)%nat then Err (notEnoughParams (fnName fn))
      else
        match params with
        | [] => Panic indexOutOfRange
        | p0 :: _ =>
            match fieldType p0 with
            | SelectorExpr X Sel =>
                q ← identName X;
                if String.eqb q "polycode" then
                  if String.eqb Sel "ServiceContext" then Ok "Service"
                  else if String.eqb Sel "WorkflowContext" then Ok "Workflow"
                  else Err (badFirstParam (fnName fn))
                else Err (badFirstParam (fnName fn))
            | _ => Err (badFirstParam (fnName fn))
            end
        end
  end.

(** The [fmt.Sprintf] of qualifier, dot and selected name when [e] is a
    selector (its [X] asserted to be an identifier); the empty string left
    in place otherwise. *)
Definition selectorName (e : Expr) : Outcome string :=
  match e with
  | SelectorExpr X Sel => q ← identName X; Ok (q +:+ "." +:+ Sel)
  | _ => Ok EmptyString
  end.

(** The pointer / selector case split [parseDir] applies to the second
    parameter and to the first result: the type name and the pointer flag. *)
Definition resolveType (t : Expr) : Outcome (string * bool) :=
  match t with
  | StarExpr _ X => n ← selectorName X; Ok (n, true)
  | _ => n ← selectorName t; Ok (n, false)
  end.

Definition nonEmpty (s : string) : bool :=
  match s with EmptyString => false | _ => true end.

(** [structDefs[k]]: a missing key reads as the nil slice. *)
Definition schemaOf (structDefs : gmap string (list Field)) (k : string)
  : list Field :=
  default [] (structDefs !! k).

(** The body of [parseDir]'s loop for one free function: [None] when the
    function is skipped. *)
Definition parseFunc (structDefs : gmap string (list Field)) (fn : FuncDecl)
  : Outcome (option MethodInfo) :=
  match fnName fn with
  | EmptyString => Panic indexOutOfRange
  | String c _ =>
      if IsLower c then Ok None
      else
        contextType ← validateFunctionParams fn;
        let methodName := ToLower (fnName fn) in
        match Params (fnType fn) with
        | None => Panic nilDereference
        | Some params =>
            match params !! 1%nat with
            | None => Panic indexOutOfRange
            | Some p1 =>
                inp ← resolveType (fieldType p1);
                match Results (fnType fn) with
                | None => Panic nilDereference
                | Some [] => Panic indexOutOfRange
                | Some (r0 :: _) =>
                    out ← resolveType (fieldType r0);
                    if (nonEmpty inp.1 && nonEmpty out.1)%bool then
                      Ok (Some {|
                        OriginalName := fnName fn;
                        mName := methodName;
                        InputType := inp.1;
                        IsInputPointer := inp.2;
                        InputSchema := schemaOf structDefs inp.1;
                        OutputType := out.1;
                        IsOutputPointer := out.2;
                        OutputSchema := schemaOf structDefs out.1;
                        IsWorkflow := String.eqb contextType "Workflow";
                        IsService := String.eqb contextType "Service" |})
                    else Ok None
                end
            end
        end
  end.

Definition appendMethod (methods : list MethodInfo) (r : option MethodInfo)
  : list MethodInfo :=
  match r with
  | Some m => methods ++ [m]
  | None => methods
  end.

Fixpoint parseDecls (structDefs : gmap string (list Field))
    (decls : list Decl) (methods : list MethodInfo)
  : Outcome (list MethodInfo) :=
  match decls with
  | [] => Ok methods
  | FuncD fn :: rest =>
      match Recv fn with
      | None =>
          r ← parseFunc structDefs fn;
          parseDecls structDefs rest (appendMethod methods r)
      | Some _ => parseDecls structDefs rest methods
      end
  | _ :: rest => parseDecls structDefs rest methods
  end.

Definition isSourceFile (name : string) : bool :=
  (HasSuffix name ".go" && negb (HasSuffix name "_test.go"))%bool.

(** The walk callback of [parseDir]. *)
Definition parseVisit (structDefs : gmap string (list Field))
    (e : WalkEntry) (st : list MethodInfo * list string)
  : Outcome (list MethodInfo * list string) :=
  match weErr e with
  | Some err => Err err
  | None =>
      if isSourceFile (weName e) then
        match weParse e with
        | inl err => Err err
        | inr node =>
            let imports :=
              st.2 ++ map (fun v => Trim1 v dquote) (Imports node) in
            methods ← parseDecls structDefs (Decls node) st.1;
            Ok (methods, imports)
        end
      else Ok st
  end.

Fixpoint parseWalk (structDefs : gmap string (list Field))
    (entries : list WalkEntry) (st : list MethodInfo * list string)
  : Outcome (list MethodInfo * list string) :=
  match entries with
  | [] => Ok st
  | e :: rest =>
      st' ← parseVisit structDefs e st;
      parseWalk structDefs rest st'
  end.

Fixpoint uniqueLoop (strs : list string) (uniqueStrings : gmap string bool)
    (result : list string) : list string :=
  match strs with
  | [] => result
  | str :: rest =>
      match uniqueStrings !! str with
      | Some _ => uniqueLoop rest uniqueStrings result
      | None => uniqueLoop rest (<[str := true]> uniqueStrings) (result ++ [str])
      end
  end.

Definition unique (strs : list string) : list string :=
  uniqueLoop strs ∅ [].

Definition parseDir (entries : list WalkEntry)
    (structDefs : gmap string (list Field))
  : Outcome (list MethodInfo * list string) :=
  st ← parseWalk structDefs entries ([], []);
  Ok (st.1, unique st.2).

Definition capitalize (word : string) : string :=
  match word with
  | EmptyString => EmptyString
  | String c rest => ToUpper (runeString c) +:+ rest
  end.

Definition toPascalCase (input : string) : string :=
  Join (map capitalize (Split1 input "-"%char)).

(** *** The record extractor *)

Definition addField (h : Heap) (fields : list Field) (field : AstField)
  : list Field :=
  match fieldNames field with
  | n :: _ =>
      fields ++ [{| Name := n; Type' := Fmt.Sprint h (fieldType field) |}]
  | [] => fields
  end.

Definition structFields (h : Heap) (l : list AstField) : list Field :=
  fold_left (addField h) l [].

Definition extractSpec (h : Heap) (structDefs : gmap string (list Field))
    (spec : Spec) : gmap string (list Field) :=
  match spec with
  | TypeSpec name (StructType _ fs _) =>
      <[name := structFields h fs]> structDefs
  | _ => structDefs
  end.

Definition extractDecl (h : Heap) (structDefs : gmap string (list Field))
    (decl : Decl) : gmap string (list Field) :=
  match decl with
  | GenD g =>
      match Tok g with
      | TYPE => fold_left (extractSpec h) (Specs g) structDefs
      | _ => structDefs
      end
  | _ => structDefs
  end.

Definition extractFile (h : Heap) (structDefs : gmap string (list Field))
    (file : File) : gmap string (list Field) :=
  fold_left (extractDecl h) (Decls file) structDefs.

(** The walk callback of [extractStructs] hands the walk's own error back
    for an erroneous entry, a directory, or a file that is not Go source;
    a file that does not parse is skipped. *)
Definition skipsEntry (e : WalkEntry) : bool :=
  (bool_decide (is_Some (weErr e)) || weIsDir e
   || negb (HasSuffix (wePath e) ".go"))%bool.

Fixpoint extractWalk (h : Heap) (entries : list WalkEntry)
    (structDefs : gmap string (list Field))
  : gmap string (list Field) * option string :=
  match entries with
  | [] => (structDefs, None)
  | e :: rest =>
      if skipsEntry e then
        match weErr e with
        | Some err => (structDefs, Some err)
        | None => extractWalk h rest structDefs
        end
      else
        match weParse e with
        | inl _ => extractWalk h rest structDefs
        | inr file => extractWalk h rest (extractFile h structDefs file)
        end
  end.

Definition extractStructs (h : Heap) (entries : list WalkEntry)
  : gmap string (list Field) * option string :=
  extractWalk h entries ∅.

(** *** File-system operations *)

Definition failIf (err : option string) : M unit :=
  match err with
  | Some e => liftO (Err e)
  | None => retM tt
  end.

Definition MkdirAll (path : string) : M unit :=
  fun w =>
    match mkdirAllErr path with
    | Some e => (Err e, w)
    | None =>
        (Ok tt,
         {| written := written w; madeDirs := madeDirs w ++ [path];
            goimported := goimported w |})
    end.

Definition WriteFile (path data : string) : M unit :=
  fun w =>
    match writeFileErr path with
    | Some e => (Err e, w)
    | None =>
        (Ok tt,
         {| written := written w ++ [(path, data)]; madeDirs := madeDirs w;
            goimported := goimported w |})
    end.

(** [exec.Command("goimports", "-w", filePath).Run()]: the command is
    issued, and its error is the result. *)
Definition runGoImports (filePath : string) : M unit :=
  fun w =>
    let w' := {| written := written w; madeDirs := madeDirs w;
                 goimported := goimported w ++ [filePath] |} in
    match goimportsErr filePath with
    | Some e => (Err e, w')
    | None => (Ok tt, w')
    end.

(** *** The orchestrator *)

(** [filepath.Join] of two elements. *)
Variable filepathJoin : string -> string -> string.

Definition generateServiceCode (serviceInfo : ServiceInfo) : Outcome string :=
  executeTemplate serviceInfo.

Definition writeServiceDefinition (appPath serviceName : string)
    (serviceInfo : ServiceInfo) : M unit :=
  let outputDir := filepathJoin appPath ".polycode/definition" in
  _ <~ MkdirAll outputDir;
  ymlData <~ liftO (yamlMarshal serviceInfo);
  let serviceFile := filepathJoin outputDir (serviceName +:+ ".yml") in
  WriteFile serviceFile ymlData.

(** [entries] is the walk of [servicePath]. *)
Definition generateService (appPath : string) (entries : list WalkEntry)
    (moduleName serviceName : string)
    (structDefs : gmap string (list Field)) (prod : bool) : M unit :=
  r <~ liftO (parseDir entries structDefs);
  match r.1 with
  | [] => retM tt
  | _ :: _ =>
      let serviceInfo := {|
        ModuleName := moduleName;
        ServiceName := serviceName;
        ServiceStructName := toPascalCase serviceName;
        Methods := r.1;
        IsProduction := prod;
        sImports := r.2 |} in
      generatedCode <~ liftO (generateServiceCode serviceInfo);
      _ <~ MkdirAll (appPath +:+ "/.polycode");
      _ <~ WriteFile (appPath +:+ "/.polycode/" +:+ serviceName +:+ ".go")
             generatedCode;
      writeServiceDefinition appPath serviceName serviceInfo
  end.

Record DirEntry : Type := mkDirEntry {
  deName : string;
  deIsDir : bool
}.

(** What a run reads from the project: the result of [getModuleName] on
    its manifest, the walk of the root, the listing of the services folder
    ([None] when the folder does not exist), the walk of each service
    directory, and whether the output folder exists before the run. *)
Record Project : Type := mkProject {
  moduleNameResult : Outcome string;
  rootWalk : list WalkEntry;
  servicesDir : option (Outcome (list DirEntry));
  serviceWalk : string -> list WalkEntry;
  polycodeExists : bool
}.

Fixpoint serviceLoop (proj : Project) (appPath moduleName : string)
    (structDefs : gmap string (list Field)) (prod : bool)
    (entries : list DirEntry) : M unit :=
  match entries with
  | [] => retM tt
  | entry :: rest =>
      _ <~ (if deIsDir entry then
              generateService appPath (serviceWalk proj (deName entry))
                moduleName (deName entry) structDefs prod
            else retM tt);
      serviceLoop proj appPath moduleName structDefs prod rest
  end.

(** [GenerateServices] up to the end of the services loop. *)
Definition generateAll (proj : Project) (h : Heap) (appPath : string)
    (prod : bool) : M unit :=
  moduleName <~ liftO (moduleNameResult proj);
  let sd := extractStructs h (rootWalk proj) in
  _ <~ failIf sd.2;
  match servicesDir proj with
  | None => retM tt
  | Some listing =>
      entries <~ liftO listing;
      serviceLoop proj appPath moduleName sd.1 prod entries
  end.

(** The end of [GenerateServices]: when the output folder exists, by now
    or from before, [goimports] is run over it. *)
Definition cleanImports (proj : Project) (appPath : string) : M unit :=
  fun w =>
    let polycodeFolder := filepathJoin appPath ".polycode" in
    if (polycodeExists proj || negb (bool_decide (madeDirs w = [])))%bool
    then runGoImports polycodeFolder w
    else retM tt w.

Definition GenerateServices (proj : Project) (h : Heap) (appPath : string)
    (prod : bool) : M unit :=
  _ <~ generateAll proj h appPath prod;
  cleanImports proj appPath.

(** *** The project manifest *)

(** [FieldsFunc(s, unicode.IsSpace)], the path [strings.Fields] takes on a
    string that is not pure ASCII. *)
Variable unicodeFields : string -> list string.

(** The ASCII white space of [strings.Fields]: tab, line feed, vertical tab,
    form feed, carriage return and space. *)
Definition isAsciiSpace (c : ascii) : bool :=
  (inRange 9 13 c || N.eqb (byteN c) 32)%bool.

Definition closeField (cur : string) : list string :=
  match cur with
  | EmptyString => []
  | String _ _ => [String.rev cur]
  end.

(** The ASCII path of [strings.Fields]; [cur] holds, reversed, the bytes of
    the field being read. *)
Fixpoint fieldsLoop (cur : string) (s : string) : list string :=
  match s with
  | EmptyString => closeField cur
  | String c s' =>
      if isAsciiSpace c then closeField cur ++ fieldsLoop EmptyString s'
      else fieldsLoop (String c cur) s'
  end.

Definition Fields (s : string) : list string :=
  if allASCII s then fieldsLoop EmptyString s else unicodeFields s.

(** What opening and scanning [go.mod] yields: the error of [os.Open], the
    lines the scanner delivers, and the error the scanner stopped on. *)
Record Manifest : Type := mkManifest {
  openErr : option string;
  scanned : list string;
  scanErr : option string
}.

Definition moduleOfLine (line : string) : option string :=
  if HasPrefix line "module" then
    match Fields line with
    | _ :: name :: _ => Some name
    | _ => None
    end
  else None.

Fixpoint scanModule (lines : list string) : option string :=
  match lines with
  | [] => None
  | line :: rest =>
      match moduleOfLine line with
      | Some name => Some name
      | None => scanModule rest
      end
  end.

Definition getModuleName (m : Manifest) : Outcome string :=
  match openErr m with
  | Some e => Err ("failed to open go.mod file: " +:+ e)
  | None =>
      match scanModule (scanned m) with
      | Some name => Ok name
      | None =>
          match scanErr m with
          | Some e => Err ("error reading go.mod file: " +:+ e)
          | None => Err "module name not found in go.mod"
          end
      end
  end.

(** *** The variant without schemas ([lib/service-gen.go]) *)

Record LibMethodInfo : Type := mkLibMethodInfo {
  libOriginalName : string;
  libName : string;
  libInputType : string;
  libIsWorkflow : bool;
  libIsService : bool;
  libIsPointer : bool
}.

(** The body of the loop of that file's [parseDir] for one free function;
    its [validateFunctionParams] is the same function. *)
Definition libParseFunc (fn : FuncDecl) : Outcome (option LibMethodInfo) :=
  match fnName fn with
  | EmptyString => Panic indexOutOfRange
  | String c _ =>
      if IsLower c then Ok None
      else
        contextType ← validateFunctionParams fn;
        let methodName := ToLower (fnName fn) in
        match Params (fnType fn) with
        | None => Panic nilDereference
        | Some params =>
            match params !! 1%nat with
            | None => Panic indexOutOfRange
            | Some p1 =>
                par ← resolveType (fieldType p1);
                if nonEmpty par.1 then
                  Ok (Some {|
                    libOriginalName := fnName fn;
                    libName := methodName;
                    libInputType := par.1;
                    libIsWorkflow := String.eqb contextType "Workflow";
                    libIsService := String.eqb contextType "Service";
                    libIsPointer := par.2 |})
                else Ok None
            end
        end
  end.

Definition libAppendMethod (methods : list LibMethodInfo)
    (r : option LibMethodInfo) : list LibMethodInfo :=
  match r with
  | Some m => methods ++ [m]
  | None => methods
  end.

Fixpoint libParseDecls (decls : list Decl) (methods : list LibMethodInfo)
  : Outcome (list LibMethodInfo) :=
  match decls with
  | [] => Ok methods
  | FuncD fn :: rest =>
      match Recv fn with
      | None =>
          r ← libParseFunc fn;
          libParseDecls rest (libAppendMethod methods r)
      | Some _ => libParseDecls rest methods
      end
  | _ :: rest => libParseDecls rest methods
  end.

Definition libParseVisit (e : WalkEntry)
    (st : list LibMethodInfo * list string)
  : Outcome (list LibMethodInfo * list string) :=
  match weErr e with
  | Some err => Err err
  | None =>
      if isSourceFile (weName e) then
        match weParse e with
        | inl err => Err err
        | inr node =>
            let imports :=
              st.2 ++ map (fun v => Trim1 v dquote) (Imports node) in
            methods ← libParseDecls (Decls node) st.1;
            Ok (methods, imports)
        end
      else Ok st
  end.

Fixpoint libParseWalk (entries : list WalkEntry)
    (st : list LibMethodInfo * list string)
  : Outcome (list LibMethodInfo * list string) :=
  match entries with
  | [] => Ok st
  | e :: rest =>
      st' ← libParseVisit e st;
      libParseWalk rest st'
  end.

Definition libParseDir (entries : list WalkEntry)
  : Outcome (list LibMethodInfo * list string) :=
  st ← libParseWalk entries ([], []);
  Ok (st.1, unique st.2).

(** A method record without its output and schemas. *)
Definition forget (m : MethodInfo) : LibMethodInfo :=
  {| libOriginalName := OriginalName m;
     libName := mName m;
     libInputType := InputType m;
     libIsWorkflow := IsWorkflow m;
     libIsService := IsService m;
     libIsPointer := IsInputPointer m |}.

(** *** Specification-side notions used by the statements *)

(** Position of the first occurrence of [x] in [l]. *)
Fixpoint indexOf (x : string) (l : list string) : option nat :=
  match l with
  | [] => None
  | y :: l' => if decide (x = y) then Some 0%nat else S <$> indexOf x l'
  end.

(** [l] without repetitions and without the members of [seen], every
    element kept at its first occurrence. *)
Fixpoint firstSeen (seen : list string) (l : list string) : list string :=
  match l with
  | [] => []
  | x :: l' =>
      if decide (x ∈ seen) then firstSeen seen l'
      else x :: firstSeen (x :: seen) l'
  end.

(** The number of parameters a field list declares: a field without names
    is one anonymous parameter. *)
Definition numParams (params : FieldList) : nat :=
  match params with
  | None => 0%nat
  | Some l =>
      list_sum (map (fun f => Nat.max 1 (length (fieldNames f))) l)
  end.

(** The context capability the first parameter names, when it is a
    reference into the [polycode] namespace. *)
Definition capability (fn : FuncDecl) : option string :=
  match Params (fnType fn) with
  | Some (mkAstField _ (SelectorExpr (Ident _ q) Sel) :: _) =>
      if String.eqb q "polycode" then Some Sel else None
  | _ => None
  end.

(** The name test of [parseDir]: the first byte of the name, taken as a
    rune, is not a lower-case letter. *)
Definition passesNameTest (fn : FuncDecl) : Prop :=
  exists c rest, fnName fn = String c rest /\ IsLower c = false.

(** [unicode.Upper], the table of upper-case letters, beyond Latin-1 and
    beyond its range U+1E00-U+1E94, step 2, which [IsUpper] writes out. *)
Variable upperTable : Z -> bool.

(** [unicode.IsUpper]. *)
Definition IsUpper (r : Z) : bool :=
  if ((0 <=? r) && (r <=? 255))%bool then latin1Upper r
  else if ((7680 <=? r) && (r <=? 7828))%bool then Z.even r
  else upperTable r.

(** [token.IsExported]: the name starts with an upper-case letter. *)
Definition IsExported (name : string) : bool := IsUpper (DecodeRune name).

(** An exported function, as Go and the specification have it. *)
Definition exported (fn : FuncDecl) : Prop := IsExported (fnName fn) = true.

(** [fn] is a free function declared in a source file of the walk. *)
Definition declaredIn (entries : list WalkEntry) (fn : FuncDecl) : Prop :=
  exists e file,
    e ∈ entries /\ weParse e = inr file
    /\ FuncD fn ∈ Decls file /\ Recv fn = None.

(** The import paths of a file, quotes trimmed, and the sequence collected
    over a walk in which every source file parses. *)
Definition fileImports (e : WalkEntry) : list string :=
  if isSourceFile (weName e) then
    match weParse e with
    | inr node => map (fun v => Trim1 v dquote) (Imports node)
    | inl _ => []
    end
  else [].

Definition collectedImports (entries : list WalkEntry) : list string :=
  flat_map fileImports entries.

(** What one field declaration adds to a schema. *)
Definition fieldOf (h : Heap) (f : AstField) : list Field :=
  match fieldNames f with
  | n :: _ => [{| Name := n; Type' := Fmt.Sprint h (fieldType f) |}]
  | [] => []
  end.

(** A method record with its schemas looked up in [structDefs]. *)
Definition withSchemas (structDefs : gmap string (list Field))
    (m : MethodInfo) : MethodInfo :=
  {| OriginalName := OriginalName m;
     mName := mName m;
     InputType := InputType m;
     IsInputPointer := IsInputPointer m;
     InputSchema := schemaOf structDefs (InputType m);
     OutputType := OutputType m;
     IsOutputPointer := IsOutputPointer m;
     OutputSchema := schemaOf structDefs (OutputType m);
     IsWorkflow := IsWorkflow m;
     IsService := IsService m |}.

Definition mapO {A B : Type} (f : A -> B) (o : Outcome A) : Outcome B :=
  match o with
  | Ok a => Ok (f a)
  | Err e => Err e
  | Panic p => Panic p
  end.

(** Go identifiers hold letters, digits and underscores: never a dot. *)
Definition dotFree (s : string) : bool := negb (containsByte "."%char s).

(** No key of the record schema holds a dot. *)
Definition keysDotFree (structDefs : gmap string (list Field)) : Prop :=
  forall k fs, structDefs !! k = Some fs -> dotFree k = true.

Definition specIdent (spec : Spec) : bool :=
  match spec with
  | TypeSpec name _ => dotFree name
  | _ => true
  end.

Definition declIdent (d : Decl) : bool :=
  match d with
  | GenD g => forallb specIdent (Specs g)
  | _ => true
  end.

Definition entryIdent (e : WalkEntry) : bool :=
  match weParse e with
  | inr file => forallb declIdent (Decls file)
  | inl _ => true
  end.

(** Every type declared under the walk is named by an identifier. *)
Definition identNames (entries : list WalkEntry) : bool :=
  forallb entryIdent entries.

(** The walk of a root before and after a run over it.  An entry the run
    did not touch is met again as it was.  An artifact the run wrote, or
    [goimports] rewrote, is met in place of its earlier state when the root
    held one already, with whatever parse its new bytes give, and as a
    further entry when it did not; so are the folders the run made.  Such
    an entry is not an erroneous one, before or after. *)
Inductive walkAgain : list WalkEntry -> list WalkEntry -> Prop :=
| walkAgain_nil : walkAgain [] []
| walkAgain_keep e l1 l2 :
    walkAgain l1 l2 -> walkAgain (e :: l1) (e :: l2)
| walkAgain_new e l1 l2 :
    weErr e = None -> walkAgain l1 l2 -> walkAgain l1 (e :: l2)
| walkAgain_rewritten e1 e2 l1 l2 :
    wePath e1 = wePath e2 -> weErr e1 = None -> weErr e2 = None ->
    walkAgain l1 l2 -> walkAgain (e1 :: l1) (e2 :: l2).

(** Two readings of one source tree, before and after a run: the manifest,
    the services folder and the service directories, where no run writes,
    read the same; the walk of the root meets the artifacts again. *)
Definition sameSource (p1 p2 : Project) : Prop :=
  moduleNameResult p1 = moduleNameResult p2
  /\ servicesDir p1 = servicesDir p2
  /\ (forall name, serviceWalk p1 name = serviceWalk p2 name)
  /\ walkAgain (rootWalk p1) (rootWalk p2).

(** [toPascalCase] in one pass: hyphens are dropped, and the byte that
    starts a word is put in upper case. *)
Fixpoint pascalWalk (capNext : bool) (s : string) : string :=
  match s with
  | EmptyString => EmptyString
  | String c s' =>
      if Ascii.eqb c "-"%char then pascalWalk true s'
      else String (if capNext then upperByte c else c) (pascalWalk false s')
  end.

Fixpoint countByte (q : ascii) (s : string) : nat :=
  match s with
  | EmptyString => 0%nat
  | String c s' => ((if Ascii.eqb c q then 1 else 0) + countByte q s')%nat
  end.

Fixpoint anyByte (P : ascii -> bool) (s : string) : bool :=
  match s with
  | EmptyString => false
  | String c s' => (P c || anyByte P s')%bool
  end.

(** The struct declared under [name] by a spec, and the last such
    declaration of a list of specs. *)
Definition structOf (name : string) (spec : Spec) : option (list AstField) :=
  match spec with
  | TypeSpec n (StructType _ fs _) =>
      if decide (n = name) then Some fs else None
  | _ => None
  end.

Definition lastStruct (name : string) (specs : list Spec)
  : option (list AstField) :=
  last (omap (structOf name) specs).

Definition fileSpecs (file : File) : list Spec :=
  flat_map (fun d => match d with
                     | GenD g => match Tok g with
                                 | TYPE => Specs g
                                 | _ => []
                                 end
                     | _ => []
                     end) (Decls file).

(** The type specs the extractor visits, in order, up to the first
    erroneous entry of the walk. *)
Fixpoint visitedSpecs (entries : list WalkEntry) : list Spec :=
  match entries with
  | [] => []
  | e :: rest =>
      match weErr e with
      | Some _ => []
      | None =>
          if skipsEntry e then visitedSpecs rest
          else match weParse e with
               | inl _ => visitedSpecs rest
               | inr file => fileSpecs file ++ visitedSpecs rest
               end
      end
  end.

Definition isIdent (e : Expr) : bool :=
  match e with Ident _ _ => true | _ => false end.

(** Type expressions whose direct children are identifiers: [T], [p.T],
    [*T], [[]T], [[n]T] with [n] an identifier, [map[K]V]. *)
Definition shallow (e : Expr) : bool :=
  match e with
  | Ident _ _ => true
  | SelectorExpr X _ => isIdent X
  | StarExpr _ X => isIdent X
  | ArrayType _ None elt => isIdent elt
  | ArrayType _ (Some n) elt => (isIdent n && isIdent elt)%bool
  | MapType _ k v => (isIdent k && isIdent v)%bool
  | StructType _ _ _ => false
  | OtherExpr _ _ => false
  end.

(** A qualified reference, bare or behind a pointer, has an identifier as
    qualifier: what the Go grammar allows as a qualified type name. *)
Definition plainQualifier (e : Expr) : bool :=
  match e with
  | SelectorExpr X _ => isIdent X
  | StarExpr _ (SelectorExpr X _) => isIdent X
  | _ => true
  end.

(** A function the parser cannot crash on: it has a name and, unless the
    name starts with a lower-case byte, qualified types among its parameters
    are plain and it declares a result whose type is plain too. *)
Definition safeFunc (fn : FuncDecl) : Prop :=
  exists c rest,
    fnName fn = String c rest
    /\ (IsLower c = false ->
        (forall params, Params (fnType fn) = Some params ->
           Forall (fun p => plainQualifier (fieldType p) = true) params)
        /\ (exists r0 rs, Results (fnType fn) = Some (r0 :: rs)
                          /\ plainQualifier (fieldType r0) = true)).

Definition isPanic {A : Type} (o : Outcome A) : bool :=
  match o with Panic _ => true | _ => false end.

(** An entry the convention parser looks at, and one the record extractor
    looks at. *)
Definition parserLooksAt (e : WalkEntry) : bool :=
  (bool_decide (is_Some (weErr e)) || isSourceFile (weName e))%bool.

Definition extractorLooksAt (e : WalkEntry) : bool :=
  (bool_decide (is_Some (weErr e))
   || (negb (skipsEntry e)
       && match weParse e with inr _ => true | inl _ => false end))%bool.

(** A declaration the convention parser looks at: a free function whose
    name does not start with a lower-case byte. *)
Definition conventionDecl (d : Decl) : bool :=
  match d with
  | FuncD fn =>
      match Recv fn, fnName fn with
      | None, EmptyString => true
      | None, String c _ => negb (IsLower c)
      | Some _, _ => false
      end
  | _ => false
  end.

(** The service model [generateService] builds, and the places it writes
    to. *)
Definition serviceInfoOf (moduleName serviceName : string) (prod : bool)
    (methods : list MethodInfo) (imports : list string) : ServiceInfo :=
  {| ModuleName := moduleName;
     ServiceName := serviceName;
     ServiceStructName := toPascalCase serviceName;
     Methods := methods;
     IsProduction := prod;
     sImports := imports |}.

Definition adapterDir (appPath : string) : string := appPath +:+ "/.polycode".

Definition adapterPath (appPath serviceName : string) : string :=
  appPath +:+ "/.polycode/" +:+ serviceName +:+ ".go".

Definition definitionDir (appPath : string) : string :=
  filepathJoin appPath ".polycode/definition".

Definition definitionPath (appPath serviceName : string) : string :=
  filepathJoin (definitionDir appPath) (serviceName +:+ ".yml").

(** *** Sample inputs *)

Definition sampleHeap : Heap :=
  {| addrExpr := fun _ => 824633802912;
     addrFieldList := fun _ => 824633803008 |}.

Definition laterHeap : Heap :=
  {| addrExpr := fun _ => 824634015744;
     addrFieldList := fun _ => 824634015840 |}.

Definition quoted (s : string) : string :=
  String dquote (s +:+ String dquote EmptyString).

Definition ctxParam (sel : string) : AstField :=
  mkAstField ["ctx"%string] (SelectorExpr (Ident 30 "polycode") sel).

Definition reqParam : AstField :=
  mkAstField ["req"%string]
    (StarExpr 60 (SelectorExpr (Ident 61 "pkg") "Req")).

(** [func DoThing(ctx polycode.ServiceContext, req *pkg.Req) (pkg.Resp, error)] *)
Definition fnDoThing : FuncDecl :=
  {| Recv := None; fnName := "DoThing";
     fnType := {| Params := Some [ctxParam "ServiceContext"; reqParam];
                  Results := Some [mkAstField [] (SelectorExpr (Ident 75 "pkg") "Resp");
                                   mkAstField [] (Ident 85 "error")] |} |}.

(** [func Notify(ctx polycode.ServiceContext, req *pkg.Req) { ... }] *)
Definition fnNotify : FuncDecl :=
  {| Recv := None; fnName := "Notify";
     fnType := {| Params := Some [ctxParam "ServiceContext"; reqParam];
                  Results := None |} |}.

(** A name that starts with U+1E00, LATIN CAPITAL LETTER A WITH RING
    BELOW, followed by [ct]: in UTF-8 the letter is the bytes E1 B8 80. *)
Definition ringName : string :=
  String (ascii_of_N 225) (String (ascii_of_N 184)
    (String (ascii_of_N 128) "ct")).

(** [fnDoThing] under that name, and a function of that name without
    parameters and results. *)
Definition fnRing : FuncDecl :=
  {| Recv := None; fnName := ringName; fnType := fnType fnDoThing |}.

Definition fnRingBare : FuncDecl :=
  {| Recv := None; fnName := ringName;
     fnType := {| Params := Some []; Results := None |} |}.

(** [func helper() {}]: unexported, skipped. *)
Definition fnHelper : FuncDecl :=
  {| Recv := None; fnName := "helper";
     fnType := {| Params := Some []; Results := None |} |}.

(** [X pkg.T] and [Y []string]. *)
Definition sampleFields : list AstField :=
  [mkAstField ["X"%string] (SelectorExpr (Ident 30 "pkg") "T");
   mkAstField ["Y"%string] (ArrayType 40 None (Ident 42 "string"))].

(** [Items []pkg.T]: the element type is a nested selector node. *)
Definition itemsField : AstField :=
  mkAstField ["Items"%string]
    (ArrayType 40 None (SelectorExpr (Ident 42 "pkg") "T")).

Definition typeDecl (name : string) (fields : list AstField) : Decl :=
  GenD {| Tok := TYPE; Specs := [TypeSpec name (StructType 20 fields false)] |}.

Definition goFile (name : string) (imports : list string)
    (decls : list Decl) : WalkEntry :=
  {| weErr := None; weName := name; wePath := "/app/" +:+ name;
     weIsDir := false;
     weParse := inr {| Imports := map quoted imports; Decls := decls |} |}.

Definition sampleService : list WalkEntry :=
  [goFile "a.go" ["pkgA"; "pkgB"]%string [FuncD fnDoThing];
   goFile "b.go" ["pkgA"]%string [FuncD fnHelper]].

Definition helpersOnly : list WalkEntry :=
  [goFile "util.go" ["fmt"%string] [FuncD fnHelper]].

Definition sampleSchema : gmap string (list Field) :=
  {[ "pkg.Req"%string := [{| Name := "Id"; Type' := "string" |}] ]}.

(** What [parseDir] returns for [fnDoThing] under [sampleSchema]. *)
Definition sampleMethod : MethodInfo :=
  {| OriginalName := "DoThing";
     mName := "dothing";
     InputType := "pkg.Req";
     IsInputPointer := true;
     InputSchema := [{| Name := "Id"; Type' := "string" |}];
     OutputType := "pkg.Resp";
     IsOutputPointer := false;
     OutputSchema := [];
     IsWorkflow := false;
     IsService := true |}.

Definition asciiOnly (s : string) : string := s.
Definition sampleTemplate (si : ServiceInfo) : Outcome string :=
  Ok ("adapter " +:+ ServiceStructName si +:+ " "
      +:+ JoinSep "," (map OriginalName (Methods si))).
Definition sampleYaml (si : ServiceInfo) : Outcome string :=
  Ok ("serviceName: " +:+ ServiceName si +:+ " "
      +:+ JoinSep "," (map (fun m => JoinSep ";" (map Type' (InputSchema m)))
                         (Methods si))).
Definition noError (path : string) : option string := None.
Definition slashJoin (a b : string) : string := a +:+ "/" +:+ b.

Definition sampleProject : Project :=
  {| moduleNameResult := Ok "example.com/app";
     rootWalk := [goFile "model.go" [] [typeDecl "Req" [itemsField]]];
     servicesDir := Some (Ok [{| deName := "orders"; deIsDir := true |}]);
     serviceWalk := fun _ => sampleService;
     polycodeExists := false |}.

(** An entry of the output folder: a folder, or a file with its parse. *)
Definition outputEntry (path name : string) (isDir : bool)
    (parse : string + File) : WalkEntry :=
  {| weErr := None; weName := name; wePath := path; weIsDir := isDir;
     weParse := parse |}.

(** The same tree with an adapter left by an earlier run, before the
    service was edited: the adapter declares a struct of its own. *)
Definition staleProject : Project :=
  {| moduleNameResult := Ok "example.com/app";
     rootWalk := [outputEntry "/app/.polycode" ".polycode" true
                    (inl "read /app/.polycode: is a directory");
                  outputEntry "/app/.polycode/orders.go" "orders.go" false
                    (inr {| Imports := [quoted "errors"];
                            Decls := [typeDecl "Orders" [];
                                      typeDecl "Legacy" [itemsField]] |});
                  goFile "model.go" [] [typeDecl "Req" [itemsField]]];
     servicesDir := Some (Ok [{| deName := "orders"; deIsDir := true |}]);
     serviceWalk := fun _ => sampleService;
     polycodeExists := true |}.

(** The tree read again after a run: the output folder exists, and the walk
    of the root meets the adapter as the run left it, the definition folder
    and the definition. *)
Definition sampleProjectAgain : Project :=
  {| moduleNameResult := Ok "example.com/app";
     rootWalk := [outputEntry "/app/.polycode" ".polycode" true
                    (inl "read /app/.polycode: is a directory");
                  outputEntry "/app/.polycode/definition" "definition" true
                    (inl "read /app/.polycode/definition: is a directory");
                  outputEntry "/app/.polycode/definition/orders.yml"
                    "orders.yml" false
                    (inl "orders.yml:1:1: expected 'package', found serviceName");
                  outputEntry "/app/.polycode/orders.go" "orders.go" false
                    (inr {| Imports := [quoted "errors"];
                            Decls := [typeDecl "Orders" []] |});
                  goFile "model.go" [] [typeDecl "Req" [itemsField]]];
     servicesDir := Some (Ok [{| deName := "orders"; deIsDir := true |}]);
     serviceWalk := fun _ => sampleService;
     polycodeExists := true |}.

(** A manifest whose module line is the second line. *)
Definition sampleManifest : Manifest :=
  {| openErr := None;
     scanned := ["// the module"; "module example.com/app"; "go 1.21"]%string;
     scanErr := None |}.

Definition noFields (s : string) : list string := [].

Definition failingTemplate (si : ServiceInfo) : Outcome string :=
  Err "template: executing wrapper".
Definition failingYaml (si : ServiceInfo) : Outcome string :=
  Err "yaml: cannot marshal".
Definition goimportsMissing (path : string) : option string :=
  Some "exec: goimports: executable file not found in $PATH".

(** A project whose manifest has no module line. *)
Definition projectWithoutModule : Project :=
  {| moduleNameResult := Err "module name not found in go.mod";
     rootWalk := [goFile "model.go" [] [typeDecl "Req" [itemsField]]];
     servicesDir := Some (Ok [{| deName := "orders"; deIsDir := true |}]);
     serviceWalk := fun _ => sampleService;
     polycodeExists := false |}.

(** A manifest without a module name: the one line that starts with
    ["module"] has no second field. *)
Definition manifestWithoutModule : Manifest :=
  {| openErr := None;
     scanned := ["go 1.21"; "module"]%string;
     scanErr := None |}.

(** A source file that does not parse, and an entry the walk could not
    read. *)
Definition brokenFile : WalkEntry :=
  {| weErr := None; weName := "broken.go"; wePath := "/app/broken.go";
     weIsDir := false;
     weParse := inl "broken.go:1:1: expected 'package', found 'EOF'" |}.

Definition unreadableDir : WalkEntry :=
  {| weErr := Some "open /app/private: permission denied";
     weName := "private"; wePath := "/app/private"; weIsDir := true;
     weParse := inl "read /app/private: is a directory" |}.

(** What the services loop over [sampleProject] has done, and what the
    whole run has. *)
Definition generatedWorld : World :=
  {| written := [("/app/.polycode/orders.go", "adapter Orders DoThing");
                 ("/app/.polycode/definition/orders.yml",
                  "serviceName: orders ")]%string;
     madeDirs := ["/app/.polycode"; "/app/.polycode/definition"]%string;
     goimported := [] |}.

Definition sampleWorld : World :=
  {| written := written generatedWorld;
     madeDirs := madeDirs generatedWorld;
     goimported := ["/app/.polycode"%string] |}.

(** ** Properties *)

(** *** Import deduplication *)

Lemma uniqueLoop_firstSeen (strs : list string) :
  forall (m : gmap string bool) (result seen : list string),
    (forall x, is_Some (m !! x) <-> x ∈ seen) ->
    uniqueLoop strs m result = result ++ firstSeen seen strs.
Proof using Type.
  induction strs as [|str rest IH]; intros m result seen Hinv; simpl.
  - by rewrite app_nil_r.
  - destruct (m !! str) as [b|] eqn:Hm.
    + rewrite decide_True; [by apply IH|].
      apply Hinv. by exists b.
    + rewrite decide_False.
      * rewrite (IH _ _ (str :: seen)); [by rewrite <- app_assoc|].
        intros x. rewrite lookup_insert, elem_of_cons.
        case_decide as Heq.
        -- subst. split; [by left | by eexists].
        -- rewrite Hinv. split; [by right|].
           intros [-> | ?]; [by destruct Heq | done].
      * intros Hin. apply Hinv in Hin. destruct Hin as [? Hin].
        rewrite Hm in Hin. discriminate.
Qed.

Lemma unique_firstSeen (strs : list string) :
  unique strs = firstSeen [] strs.
Proof.
  unfold unique. rewrite (uniqueLoop_firstSeen strs ∅ [] []); [done|].
  intros x. rewrite lookup_empty. split.
  - by intros [? ?].
  - by intros ?%elem_of_nil.
Qed.

Lemma elem_of_firstSeen (l : list string) :
  forall seen x, x ∈ firstSeen seen l <-> x ∈ l /\ x ∉ seen.
Proof using Type.
  induction l as [|y l IH]; intros seen x; simpl.
  - split; [by intros ?%elem_of_nil | by intros [?%elem_of_nil _]].
  - case_decide as Hy.
    + rewrite IH, elem_of_cons. split.
      * intros [? ?]. split; [by right | done].
      * intros [[-> | ?] ?]; [contradiction | done].
    + rewrite !elem_of_cons, IH, elem_of_cons. split.
      * intros [-> | [? Hn]]; (split; [(by left) || (by right)|]); [exact Hy|].
        intros ?. apply Hn. by right.
      * intros [[-> | ?] Hn]; [by left|].
        destruct (decide (x = y)) as [->|Hne]; [by left|]. right.
        split; [done|]. intros [? | ?]; contradiction.
Qed.

Lemma NoDup_firstSeen (l : list string) :
  forall seen, NoDup (firstSeen seen l).
Proof using Type.
  induction l as [|y l IH]; intros seen; simpl.
  - constructor.
  - case_decide; [apply IH|].
    constructor; [|apply IH].
    rewrite elem_of_firstSeen, elem_of_cons. intros [_ Hn]. apply Hn. by left.
Qed.

Lemma indexOf_Some_elem (x : string) (l : list string) (i : nat) :
  indexOf x l = Some i -> x ∈ l.
Proof.
  revert i. induction l as [|y l IH]; intros i; simpl; [done|].
  case_decide; [subst; intros _; by left|].
  destruct (indexOf x l) eqn:E; [|done].
  intros _. right. by eapply IH.
Qed.



(** *** What the convention parser returns *)

Lemma bindO_Ok {A B : Type} (o : Outcome A) (k : A -> Outcome B) (b : B) :
  o ≫= k = Ok b -> exists a, o = Ok a /\ k a = Ok b.
Proof. destruct o as [a| |]; simpl; [eauto | done | done]. Qed.

Lemma validateFunctionParams_Ok (fn : FuncDecl) (ctx : string) :
  validateFunctionParams fn = Ok ctx ->
  (ctx = "Service" /\ capability fn = Some "ServiceContext")
  \/ (ctx = "Workflow" /\ capability fn = Some "WorkflowContext").
Proof.
  unfold validateFunctionParams, capability.
  destruct (Params (fnType fn)) as [params|]; [|done].
  destruct (length params <? 2)%nat; [done|].
  destruct params as [|[ns t] ?]; [done|]. simpl.
  destruct t as [| X Sel | | | | |]; try done.
  destruct X as [pos q| | | | | |]; try done. simpl.
  destruct (String.eqb q "polycode"); [|done].
  destruct (String.eqb Sel "ServiceContext") eqn:E1.
  { apply String.eqb_eq in E1 as ->. intros [= <-]. by left. }
  destruct (String.eqb Sel "WorkflowContext") eqn:E2; [|done].
  apply String.eqb_eq in E2 as ->. intros [= <-]. by right.
Qed.

Lemma parseFunc_Some (sd : gmap string (list Field)) (fn : FuncDecl)
    (m : MethodInfo) :
  parseFunc sd fn = Ok (Some m) ->
  exists ctx params p1 inp r0 rs out,
    passesNameTest fn
    /\ validateFunctionParams fn = Ok ctx
    /\ Params (fnType fn) = Some params /\ params !! 1%nat = Some p1
    /\ resolveType (fieldType p1) = Ok inp
    /\ Results (fnType fn) = Some (r0 :: rs)
    /\ resolveType (fieldType r0) = Ok out
    /\ nonEmpty inp.1 = true /\ nonEmpty out.1 = true
    /\ m = {| OriginalName := fnName fn;
              mName := ToLower (fnName fn);
              InputType := inp.1;
              IsInputPointer := inp.2;
              InputSchema := schemaOf sd inp.1;
              OutputType := out.1;
              IsOutputPointer := out.2;
              OutputSchema := schemaOf sd out.1;
              IsWorkflow := String.eqb ctx "Workflow";
              IsService := String.eqb ctx "Service" |}.
Proof.
  unfold parseFunc, passesNameTest.
  destruct (fnName fn) as [|c rest] eqn:En; [discriminate|].
  destruct (IsLower c) eqn:Ec; [discriminate|].
  intros (ctx & Hv & H)%bindO_Ok.
  destruct (Params (fnType fn)) as [params|]; [|discriminate].
  destruct (params !! 1%nat) as [p1|] eqn:Ep; [|discriminate].
  apply bindO_Ok in H as (inp & Hin & H).
  destruct (Results (fnType fn)) as [[|r0 rs]|]; try discriminate.
  apply bindO_Ok in H as (out & Hout & H).
  destruct (nonEmpty inp.1) eqn:Ni; [|discriminate].
  destruct (nonEmpty out.1) eqn:No; [|discriminate].
  simpl in H. injection H as <-.
  exists ctx, params, p1, inp, r0, rs, out.
  repeat split; eauto.
Qed.

Lemma parseDecls_provenance (sd : gmap string (list Field))
    (decls : list Decl) :
  forall acc ms,
    parseDecls sd decls acc = Ok ms ->
    exists new,
      ms = acc ++ new
      /\ Forall (fun m => exists fn,
                   FuncD fn ∈ decls /\ Recv fn = None
                   /\ parseFunc sd fn = Ok (Some m)) new.
Proof.
  induction decls as [|d decls IH]; intros acc ms; simpl.
  - intros [= <-]. exists []. by rewrite app_nil_r.
  - assert (forall acc',
      parseDecls sd decls acc' = Ok ms ->
      forall pre, acc' = acc ++ pre ->
        Forall (fun m => exists fn,
                  FuncD fn ∈ d :: decls /\ Recv fn = None
                  /\ parseFunc sd fn = Ok (Some m)) pre ->
        exists new,
          ms = acc ++ new
          /\ Forall (fun m => exists fn,
                       FuncD fn ∈ d :: decls /\ Recv fn = None
                       /\ parseFunc sd fn = Ok (Some m)) new) as Hstep.
    { intros acc' H pre -> Hpre.
      apply IH in H as (new & -> & Hnew).
      exists (pre ++ new). split; [by rewrite app_assoc|].
      apply Forall_app. split; [done|].
      eapply Forall_impl; [exact Hnew|].
      intros m (fn & Hfn & ?). exists fn. split; [by right | done]. }
    destruct d as [fn| |].
    + destruct (Recv fn) eqn:Er.
      * intros H. apply (Hstep acc H []); [by rewrite app_nil_r | constructor].
      * intros (r & Hr & H)%bindO_Ok. destruct r as [m|]; simpl in H.
        -- apply (Hstep _ H [m]); [done|].
           constructor; [|constructor].
           exists fn. split; [by left | done].
        -- apply (Hstep acc H []); [by rewrite app_nil_r | constructor].
    + intros H. apply (Hstep acc H []); [by rewrite app_nil_r | constructor].
    + intros H. apply (Hstep acc H []); [by rewrite app_nil_r | constructor].
Qed.

Lemma parseWalk_provenance (sd : gmap string (list Field))
    (entries : list WalkEntry) :
  forall st st',
    parseWalk sd entries st = Ok st' ->
    (exists new,
       st'.1 = st.1 ++ new
       /\ Forall (fun m => exists fn,
                    declaredIn entries fn
                    /\ parseFunc sd fn = Ok (Some m)) new)
    /\ st'.2 = st.2 ++ collectedImports entries.
Proof.
  induction entries as [|e entries IH]; intros st st'; simpl.
  - intros [= <-]. split; [exists [] |]; by rewrite app_nil_r.
  - intros (st1 & Hv & H)%bindO_Ok.
    apply IH in H as [(new & Hnew & Hall) Himp].
    assert (Forall (fun m => exists fn,
              declaredIn (e :: entries) fn
              /\ parseFunc sd fn = Ok (Some m)) new) as Hall'.
    { eapply Forall_impl; [exact Hall|].
      intros m (fn & (e0 & file & ? & ?) & ?). exists fn. split; [|done].
      exists e0, file. split; [by right | done]. }
    unfold parseVisit in Hv. unfold fileImports at 1.
    destruct (weErr e); [done|].
    destruct (isSourceFile (weName e)).
    + destruct (weParse e) as [err|node] eqn:Ep; [done|].
      apply bindO_Ok in Hv as (ms & Hd & [= <-]). simpl in *.
      apply parseDecls_provenance in Hd as (new1 & -> & Hall1).
      split.
      * exists (new1 ++ new). split; [by rewrite Hnew, app_assoc|].
        apply Forall_app. split; [|done].
        eapply Forall_impl; [exact Hall1|].
        intros m (fn & ? & ? & ?). exists fn. split; [|done].
        exists e, node. split; [by left | done].
      * by rewrite Himp, app_assoc.
    + injection Hv as <-. split; [by exists new | done].
Qed.

Lemma parseDir_provenance (sd : gmap string (list Field))
    (entries : list WalkEntry) (ms : list MethodInfo) (imps : list string) :
  parseDir entries sd = Ok (ms, imps) ->
  Forall (fun m => exists fn,
            declaredIn entries fn /\ parseFunc sd fn = Ok (Some m)) ms
  /\ imps = unique (collectedImports entries).
Proof.
  unfold parseDir. intros (st & Hw & [= <- <-])%bindO_Ok.
  apply parseWalk_provenance in Hw as [(new & -> & Hall) ->]. done.
Qed.

(** When the parse succeeds, every free function of every source file was
    looked at without error, and the record of each retained one is in the
    result. *)
Lemma parseDecls_Ok_all (sd : gmap string (list Field)) (decls : list Decl) :
  forall acc ms,
    parseDecls sd decls acc = Ok ms ->
    (forall m, m ∈ acc -> m ∈ ms)
    /\ (forall fn, FuncD fn ∈ decls -> Recv fn = None ->
          exists r, parseFunc sd fn = Ok r
                    /\ (forall m, r = Some m -> m ∈ ms)).
Proof.
  induction decls as [|d decls IH]; intros acc ms; simpl.
  - intros [= <-]. split; [done|]. intros fn Hin. by apply elem_of_nil in Hin.
  - destruct d as [fn0| |].
    + destruct (Recv fn0) eqn:Er.
      * intros H. apply IH in H as [Hacc Hall]. split; [exact Hacc|].
        intros fn Hin Hr. apply elem_of_cons in Hin as [Heq | Hin];
          [|by apply Hall].
        injection Heq as ->. rewrite Er in Hr. discriminate.
      * intros (r & Hf & H)%bindO_Ok. apply IH in H as [Hacc Hall].
        assert (forall m, m ∈ acc -> m ∈ ms) as Hacc'.
        { intros m Hm. apply Hacc. destruct r; simpl; [|exact Hm].
          apply elem_of_app. by left. }
        split; [exact Hacc'|].
        intros fn Hin Hr. apply elem_of_cons in Hin as [Heq | Hin];
          [|by apply Hall].
        injection Heq as ->. exists r. split; [exact Hf|].
        intros m ->. apply Hacc. simpl. apply elem_of_app. right.
        apply list_elem_of_here.
    + intros H. apply IH in H as [Hacc Hall]. split; [exact Hacc|].
      intros fn Hin Hr. apply elem_of_cons in Hin as [Heq | Hin];
        [discriminate | by apply Hall].
    + intros H. apply IH in H as [Hacc Hall]. split; [exact Hacc|].
      intros fn Hin Hr. apply elem_of_cons in Hin as [Heq | Hin];
        [discriminate | by apply Hall].
Qed.

Lemma parseWalk_Ok_all (sd : gmap string (list Field))
    (entries : list WalkEntry) :
  forall st st',
    parseWalk sd entries st = Ok st' ->
    (forall m, m ∈ st.1 -> m ∈ st'.1)
    /\ (forall e file fn,
          e ∈ entries -> isSourceFile (weName e) = true ->
          weParse e = inr file -> FuncD fn ∈ Decls file -> Recv fn = None ->
          exists r, parseFunc sd fn = Ok r
                    /\ (forall m, r = Some m -> m ∈ st'.1)).
Proof.
  induction entries as [|e0 entries IH]; intros st st'; simpl.
  - intros [= <-]. split; [done|].
    intros e file fn Hin. by apply elem_of_nil in Hin.
  - intros (st1 & Hv & H)%bindO_Ok. apply IH in H as [Hacc Hall].
    unfold parseVisit in Hv.
    destruct (weErr e0); [discriminate|].
    destruct (isSourceFile (weName e0)) eqn:Es.
    + destruct (weParse e0) as [err|node] eqn:Ep; [discriminate|].
      apply bindO_Ok in Hv as (ms1 & Hd & [= <-]). simpl in *.
      apply parseDecls_Ok_all in Hd as [Hacc1 Hall1].
      split; [intros m Hm; by apply Hacc, Hacc1|].
      intros e file fn Hin Hs Hp Hfn Hr.
      apply elem_of_cons in Hin as [-> | Hin]; [|by eapply Hall].
      rewrite Ep in Hp. injection Hp as <-.
      destruct (Hall1 fn Hfn Hr) as (r & Hf & Hm).
      exists r. split; [exact Hf|]. intros m Hrm. by apply Hacc, Hm.
    + injection Hv as <-. split; [exact Hacc|].
      intros e file fn Hin Hs Hp Hfn Hr.
      apply elem_of_cons in Hin as [-> | Hin]; [|by eapply Hall].
      rewrite Es in Hs. discriminate.
Qed.

Lemma parseDir_Ok_all (sd : gmap string (list Field))
    (entries : list WalkEntry) (ms : list MethodInfo) (imps : list string)
    (e : WalkEntry) (file : File) (fn : FuncDecl) :
  parseDir entries sd = Ok (ms, imps) ->
  e ∈ entries -> isSourceFile (weName e) = true ->
  weParse e = inr file -> FuncD fn ∈ Decls file -> Recv fn = None ->
  exists r, parseFunc sd fn = Ok r /\ (forall m, r = Some m -> m ∈ ms).
Proof.
  unfold parseDir. intros (st & Hw & [= <- <-])%bindO_Ok.
  apply parseWalk_Ok_all in Hw as [_ Hall]. apply Hall.
Qed.

Lemma nonEmpty_qualified (q sel : string) :
  nonEmpty (q +:+ "." +:+ sel) = true.
Proof. destruct q; reflexivity. Qed.

Lemma nonEmpty_true (s : string) : nonEmpty s = true -> s <> EmptyString.
Proof. destruct s; [discriminate | discriminate]. Qed.

Lemma containsByte_app_r (q : ascii) (s t : string) :
  containsByte q t = true -> containsByte q (s +:+ t) = true.
Proof.
  intros Ht. induction s as [|c s IH]; [exact Ht|].
  change (String c s +:+ t) with (String c (s +:+ t)). simpl.
  rewrite IH. apply orb_true_r.
Qed.

Lemma selectorName_dotted (e : Expr) (n : string) :
  selectorName e = Ok n -> nonEmpty n = true ->
  containsByte "."%char n = true.
Proof.
  destruct e as [| X Sel | | | | |]; simpl; try (intros [= <-]; discriminate).
  intros (q & _ & [= <-])%bindO_Ok _.
  apply containsByte_app_r. reflexivity.
Qed.

Lemma resolveType_dotted (t : Expr) (r : string * bool) :
  resolveType t = Ok r -> nonEmpty r.1 = true ->
  containsByte "."%char r.1 = true.
Proof.
  unfold resolveType. intros H.
  assert (exists e, selectorName e = Ok r.1) as [e He].
  { destruct t; apply bindO_Ok in H as (n & Hn & [= <-]); eauto. }
  by apply (selectorName_dotted e).
Qed.

(** *** Schemas are looked up, never computed *)

Lemma parseFunc_attach (sd : gmap string (list Field)) (fn : FuncDecl) :
  parseFunc sd fn = mapO (option_map (withSchemas sd)) (parseFunc ∅ fn).
Proof.
  unfold parseFunc.
  destruct (fnName fn) as [|c rest]; [reflexivity|].
  destruct (IsLower c); [reflexivity|].
  destruct (validateFunctionParams fn) as [ctx| |]; try reflexivity. simpl.
  destruct (Params (fnType fn)) as [params|]; [|reflexivity].
  destruct (params !! 1%nat) as [p1|]; [|reflexivity].
  destruct (resolveType (fieldType p1)) as [inp| |]; try reflexivity. simpl.
  destruct (Results (fnType fn)) as [[|r0 rs]|]; try reflexivity.
  destruct (resolveType (fieldType r0)) as [out| |]; try reflexivity. simpl.
  destruct (nonEmpty inp.1 && nonEmpty out.1)%bool; reflexivity.
Qed.

Lemma parseDecls_attach (sd : gmap string (list Field)) (decls : list Decl) :
  forall acc,
    parseDecls sd decls (map (withSchemas sd) acc)
    = mapO (map (withSchemas sd)) (parseDecls ∅ decls acc).
Proof.
  induction decls as [|d decls IH]; intros acc; simpl; [reflexivity|].
  destruct d as [fn| |]; try apply IH.
  destruct (Recv fn); [apply IH|].
  rewrite parseFunc_attach.
  destruct (parseFunc ∅ fn) as [[m|]| |]; simpl; try reflexivity; [|apply IH].
  rewrite <- IH. by rewrite map_app.
Qed.

Lemma parseWalk_attach (sd : gmap string (list Field))
    (entries : list WalkEntry) :
  forall st,
    parseWalk sd entries (map (withSchemas sd) st.1, st.2)
    = mapO (fun r => (map (withSchemas sd) r.1, r.2))
        (parseWalk ∅ entries st).
Proof.
  induction entries as [|e entries IH]; intros [ms imps]; simpl;
    [reflexivity|].
  unfold parseVisit. destruct (weErr e); [reflexivity|].
  destruct (isSourceFile (weName e)); [|apply (IH (ms, imps))].
  destruct (weParse e) as [err|node]; [reflexivity|]. simpl.
  rewrite parseDecls_attach.
  destruct (parseDecls ∅ (Decls node) ms) as [ms'| |]; simpl;
    try reflexivity.
  apply (IH (ms', _)).
Qed.

Lemma parseDir_attach (sd : gmap string (list Field))
    (entries : list WalkEntry) :
  parseDir entries sd
  = mapO (fun r => (map (withSchemas sd) r.1, r.2)) (parseDir entries ∅).
Proof.
  unfold parseDir.
  pose proof (parseWalk_attach sd entries ([], [])) as H. simpl in H.
  rewrite H. by destruct (parseWalk ∅ entries ([], [])).
Qed.

(** C1.  Every retained method carries, as input (resp. output) schema,
    the field list the record schema holds under its input (resp. output)
    type name, and the empty schema when the name has no entry; whether
    [parseDir] succeeds does not depend on which entries exist. *)
Theorem schemas_attached_by_lookup (sd : gmap string (list Field))
    (entries : list WalkEntry) (ms : list MethodInfo) (imps : list string) :
  parseDir entries sd = Ok (ms, imps) ->
  Forall (fun m =>
            (forall fs, sd !! InputType m = Some fs -> InputSchema m = fs)
            /\ (sd !! InputType m = None -> InputSchema m = [])
            /\ (forall fs, sd !! OutputType m = Some fs -> OutputSchema m = fs)
            /\ (sd !! OutputType m = None -> OutputSchema m = [])) ms
  /\ (forall sd', isOk (parseDir entries sd') = true).
Proof.
  intros H. split.
  - apply parseDir_provenance in H as [Hall _].
    eapply Forall_impl; [exact Hall|].
    intros m (fn & _ & Hm).
    apply parseFunc_Some in Hm
      as (ctx & params & p1 & inp & r0 & rs & out & _ & _ & _ & _ & _ & _
          & _ & _ & _ & ->).
    simpl. unfold schemaOf.
    repeat split; intros; by simplify_option_eq.
  - intros sd'. rewrite parseDir_attach in H. rewrite parseDir_attach.
    by destruct (parseDir entries ∅).
Qed.

(** *** The method record of a convention function *)

(** A free function that passes the name test, in a source file of a
    service whose parse succeeds, with a recognized context as first
    parameter, a pointer to the qualified type [pkg.req] as second
    parameter and the bare qualified type [pkgr.resp] as first result, has
    its record in the method list: the declared name, its lower-cased form,
    input type [pkg.req] flagged as a pointer, output type [pkgr.resp]
    flagged as a value. *)
Lemma convention_function_recorded (sd : gmap string (list Field))
    (entries : list WalkEntry) (ms : list MethodInfo) (imps : list string)
    (e : WalkEntry) (file : File)
    (fn : FuncDecl) (sel pkg req pkgr resp : string)
    (pos0 pos1 posr star : Z) (names0 names1 namesr : list string)
    (more rs : list AstField) :
  parseDir entries sd = Ok (ms, imps) ->
  e ∈ entries -> isSourceFile (weName e) = true ->
  weParse e = inr file -> FuncD fn ∈ Decls file ->
  Recv fn = None -> passesNameTest fn ->
  sel = "ServiceContext" \/ sel = "WorkflowContext" ->
  Params (fnType fn)
  = Some (mkAstField names0 (SelectorExpr (Ident pos0 "polycode") sel)
          :: mkAstField names1
               (StarExpr star (SelectorExpr (Ident pos1 pkg) req))
          :: more) ->
  Results (fnType fn)
  = Some (mkAstField namesr (SelectorExpr (Ident posr pkgr) resp) :: rs) ->
  exists m,
    m ∈ ms
    /\ OriginalName m = fnName fn
    /\ mName m = ToLower (fnName fn)
    /\ InputType m = pkg +:+ "." +:+ req
    /\ IsInputPointer m = true
    /\ OutputType m = pkgr +:+ "." +:+ resp
    /\ IsOutputPointer m = false.
Proof.
  intros Hdir Hin Hs Hp Hfn Hrecv (c & rest & Hname & Hc) Hsel Hparams
    Hresults.
  destruct (parseDir_Ok_all _ _ _ _ _ _ _ Hdir Hin Hs Hp Hfn Hrecv)
    as (r & Hf & Hm).
  assert (exists ctx, validateFunctionParams fn = Ok ctx) as [ctx Hctx].
  { unfold validateFunctionParams. rewrite Hparams. simpl.
    destruct Hsel as [-> | ->]; simpl; eauto. }
  unfold parseFunc in Hf.
  rewrite Hname, Hc, Hctx, Hparams, Hresults in Hf. simpl in Hf.
  rewrite !nonEmpty_qualified in Hf. simpl in Hf. injection Hf as <-.
  eexists. split; [by apply Hm|]. rewrite Hname. by repeat split.
Qed.

(** A method is retained only with an input and an output type name that
    are not empty. *)
Lemma retained_methods_resolved (sd : gmap string (list Field))
    (entries : list WalkEntry) (ms : list MethodInfo) (imps : list string) :
  parseDir entries sd = Ok (ms, imps) ->
  Forall (fun m => InputType m <> EmptyString
                   /\ OutputType m <> EmptyString) ms.
Proof.
  intros H. apply parseDir_provenance in H as [Hall _].
  eapply Forall_impl; [exact Hall|].
  intros m (fn' & _ & Hm).
  apply parseFunc_Some in Hm
    as (ctx & params & p1 & inp & r0 & rs' & out & _ & _ & _ & _ & _ & _
        & _ & Hi & Ho & ->).
  simpl. split; by apply nonEmpty_true.
Qed.

(** *** Service and workflow flags *)


(** *** The record extractor *)

Lemma fold_addField (h : Heap) (l : list AstField) :
  forall acc, fold_left (addField h) l acc = acc ++ flat_map (fieldOf h) l.
Proof.
  induction l as [|f l IH]; intros acc; simpl.
  - by rewrite app_nil_r.
  - rewrite IH. unfold addField, fieldOf.
    destruct (fieldNames f); simpl; [done|]. by rewrite <- app_assoc.
Qed.

Lemma structFields_flat_map (h : Heap) (l : list AstField) :
  structFields h l = flat_map (fieldOf h) l.
Proof. unfold structFields. by rewrite fold_addField. Qed.

(** C10.  A field declaration that lists several names contributes one
    [Field] to the schema of its record type, named by the first of them;
    the other names of the declaration contribute nothing. *)
Theorem only_first_name_recorded (h : Heap) (sd : gmap string (list Field))
    (name n n' : string) (more : list string) (t : Expr)
    (pre post : list AstField) (pos : Z) (inc : bool) :
  structFields h (pre ++ mkAstField (n :: n' :: more) t :: post)
  = structFields h pre
    ++ {| Name := n; Type' := Fmt.Sprint h t |} :: structFields h post
  /\ extractSpec h sd
       (TypeSpec name
          (StructType pos (pre ++ mkAstField (n :: n' :: more) t :: post) inc))
     !! name
     = Some (structFields h pre
             ++ {| Name := n; Type' := Fmt.Sprint h t |}
             :: structFields h post).
Proof.
  assert (structFields h (pre ++ mkAstField (n :: n' :: more) t :: post)
          = structFields h pre
            ++ {| Name := n; Type' := Fmt.Sprint h t |}
            :: structFields h post) as E.
  { rewrite !structFields_flat_map, flat_map_app. reflexivity. }
  split; [exact E|].
  simpl. rewrite lookup_insert_eq. by rewrite E.
Qed.

(** C2 (the code departs from it).  For [type S struct { X pkg.T; Y []string }]
    the extractor records the [fmt] rendering of the syntax nodes,
    ["&{pkg T}"] and ["&{40 <nil> string}"], where the source text of the
    two type expressions is ["pkg.T"] and ["[]string"]. *)
Theorem field_type_is_node_dump (h : Heap) :
  (extractStructs h [goFile "model.go" [] [typeDecl "S" sampleFields]]).1
    !! "S"
  = Some [{| Name := "X"; Type' := "&{pkg T}" |};
          {| Name := "Y"; Type' := "&{40 <nil> string}" |}]
  /\ map (fun f => sourceText (fieldType f)) sampleFields
     = ["pkg.T"; "[]string"]%string.
Proof.
  split; [|reflexivity].
  unfold extractStructs. simpl. apply lookup_insert_eq.
Qed.

(** The recorded string of [Items []pkg.T] holds the address of the element
    node: it differs from one parse of the file to the next. *)
Lemma field_type_depends_on_heap :
  structFields sampleHeap [itemsField]
  = [{| Name := "Items"; Type' := "&{40 <nil> 0xc0000140a0}" |}]
  /\ structFields laterHeap [itemsField]
     = [{| Name := "Items"; Type' := "&{40 <nil> 0xc000048000}" |}].
Proof. split; reflexivity. Qed.

(** An identifier is the one type expression recorded as its source text. *)
Lemma Sprint_Ident (h : Heap) (pos : Z) (n : string) :
  Fmt.Sprint h (Ident pos n) = sourceText (Ident pos n).
Proof. reflexivity. Qed.

(** *** Services without methods *)

(** C7.  When the convention parser returns an empty method list for a
    service directory, [generateService] returns without error and leaves
    the world as it found it: no directory made, no file written. *)
Theorem no_methods_no_artifacts (appPath moduleName serviceName : string)
    (entries : list WalkEntry) (sd : gmap string (list Field))
    (prod : bool) (imps : list string) (w : World) :
  parseDir entries sd = Ok ([], imps) ->
  generateService appPath entries moduleName serviceName sd prod w
  = (Ok tt, w).
Proof.
  intros H. unfold generateService, bindM, liftO. rewrite H. reflexivity.
Qed.

(** *** Rejected and skipped functions *)

Lemma mentions_middle (pre name post : string) :
  mentions (pre +:+ name +:+ post) name.
Proof. by exists pre, post. Qed.

Lemma errors_name_the_function (name : string) :
  mentions (notEnoughParams name) name /\ mentions (badFirstParam name) name.
Proof. split; apply mentions_middle. Qed.

Lemma length_le_numParams (l : list AstField) :
  (length l <= numParams (Some l))%nat.
Proof.
  unfold numParams. induction l as [|f l IH]; simpl; lia.
Qed.

(** A function with fewer than two parameters is rejected by name. *)
Lemma too_few_params_rejected (fn : FuncDecl) :
  (numParams (Params (fnType fn)) < 2)%nat ->
  validateFunctionParams fn = Err (notEnoughParams (fnName fn)).
Proof.
  unfold validateFunctionParams.
  destruct (Params (fnType fn)) as [l|]; [|reflexivity].
  intros H. pose proof (length_le_numParams l).
  destruct (Nat.ltb_spec (length l) 2); [reflexivity | lia].
Qed.

(** A first parameter that is not a reference to one of the two contexts
    is rejected by name, provided the qualifier of a qualified reference
    is an identifier. *)
Lemma bad_first_param_rejected (fn : FuncDecl) (p0 p1 : AstField)
    (more : list AstField) :
  Params (fnType fn) = Some (p0 :: p1 :: more) ->
  (forall X Sel, fieldType p0 = SelectorExpr X Sel ->
                 exists pos q, X = Ident pos q) ->
  capability fn <> Some "ServiceContext" ->
  capability fn <> Some "WorkflowContext" ->
  validateFunctionParams fn = Err (badFirstParam (fnName fn)).
Proof.
  unfold validateFunctionParams, capability. intros -> Hq. simpl.
  destruct p0 as [ns t]. simpl in *.
  destruct t as [| X Sel | | | | |]; try reflexivity.
  destruct (Hq X Sel eq_refl) as (pos & q & ->). simpl.
  destruct (String.eqb q "polycode"); [|reflexivity].
  destruct (String.eqb_spec Sel "ServiceContext") as [->|]; [congruence|].
  destruct (String.eqb_spec Sel "WorkflowContext") as [->|]; [congruence|].
  reflexivity.
Qed.

(** An error of the validation is the error of the whole parse of the
    declarations. *)
Lemma rejection_aborts_parse (sd : gmap string (list Field)) (fn : FuncDecl)
    (decls : list Decl) (acc : list MethodInfo) (msg : string) :
  Recv fn = None -> passesNameTest fn ->
  validateFunctionParams fn = Err msg ->
  parseDecls sd (FuncD fn :: decls) acc = Err msg.
Proof.
  intros Hr (c & rest & Hn & Hc) Hv. simpl. rewrite Hr.
  unfold parseFunc. rewrite Hn, Hc, Hv. reflexivity.
Qed.

(** A second parameter or first result of another shape leaves the type
    name empty, and the function is skipped. *)
Lemma shape_mismatch_skipped (sd : gmap string (list Field)) (fn : FuncDecl)
    (ctx : string) (params : list AstField) (p1 r0 : AstField)
    (rs : list AstField) (inp out : string * bool) :
  passesNameTest fn ->
  validateFunctionParams fn = Ok ctx ->
  Params (fnType fn) = Some params -> params !! 1%nat = Some p1 ->
  resolveType (fieldType p1) = Ok inp ->
  Results (fnType fn) = Some (r0 :: rs) ->
  resolveType (fieldType r0) = Ok out ->
  inp.1 = EmptyString \/ out.1 = EmptyString ->
  parseFunc sd fn = Ok None.
Proof.
  intros (c & rest & Hn & Hc) Hv Hp H1 Hi Hr Ho Hempty.
  unfold parseFunc. rewrite Hn, Hc, Hv. simpl.
  rewrite Hp, H1, Hi. simpl. rewrite Hr, Ho. simpl.
  destruct Hempty as [-> | ->]; simpl; [reflexivity|].
  by rewrite andb_false_r.
Qed.

(** A function that passes validation and declares no result makes the
    parser dereference the nil result list. *)
Lemma missing_results_panic (sd : gmap string (list Field)) (fn : FuncDecl)
    (ctx : string) (params : list AstField) (p1 : AstField)
    (inp : string * bool) :
  passesNameTest fn ->
  validateFunctionParams fn = Ok ctx ->
  Params (fnType fn) = Some params -> params !! 1%nat = Some p1 ->
  resolveType (fieldType p1) = Ok inp ->
  Results (fnType fn) = None ->
  parseFunc sd fn = Panic nilDereference.
Proof.
  intros (c & rest & Hn & Hc) Hv Hp H1 Hi Hr.
  unfold parseFunc. rewrite Hn, Hc, Hv. simpl.
  rewrite Hp, H1, Hi. simpl. by rewrite Hr.
Qed.

(** C4 (the code departs from it).  [func Notify(ctx polycode.ServiceContext,
    req *pkg.Req)] is exported and passes the validation of its first
    parameter; it declares no result, and [parseDir] panics on the nil
    result list where the specification has the function skipped. *)
Theorem no_result_function_panics (sd : gmap string (list Field)) :
  exported fnNotify
  /\ validateFunctionParams fnNotify = Ok "Service"
  /\ parseFunc sd fnNotify = Panic nilDereference
  /\ parseDir [goFile "svc.go" [] [FuncD fnNotify]] sd
     = Panic nilDereference.
Proof.
  repeat split; reflexivity.
Qed.

(** *** Regeneration *)

Lemma keysDotFree_empty : keysDotFree ∅.
Proof. intros k fs. by rewrite lookup_empty. Qed.

Lemma extractSpec_keys (h : Heap) (sd : gmap string (list Field))
    (spec : Spec) :
  specIdent spec = true -> keysDotFree sd ->
  keysDotFree (extractSpec h sd spec).
Proof.
  intros Hs Hsd. destruct spec as [| | name t]; try exact Hsd.
  destruct t; try exact Hsd. simpl in *.
  intros k fs. rewrite lookup_insert. case_decide as E.
  - subst. intros _. exact Hs.
  - apply Hsd.
Qed.

Lemma extractSpecs_keys (h : Heap) (specs : list Spec) :
  forall sd,
    forallb specIdent specs = true -> keysDotFree sd ->
    keysDotFree (fold_left (extractSpec h) specs sd).
Proof.
  induction specs as [|spec specs IH]; intros sd; simpl; [done|].
  intros [H1 H2]%andb_true_iff Hsd.
  apply IH; [done|]. by apply extractSpec_keys.
Qed.

Lemma extractDecl_keys (h : Heap) (sd : gmap string (list Field))
    (d : Decl) :
  declIdent d = true -> keysDotFree sd ->
  keysDotFree (extractDecl h sd d).
Proof.
  intros Hd Hsd. destruct d as [|g|]; try exact Hsd. simpl in *.
  destruct (Tok g); try exact Hsd. by apply extractSpecs_keys.
Qed.

Lemma extractFile_keys (h : Heap) (file : File) :
  forall sd,
    forallb declIdent (Decls file) = true -> keysDotFree sd ->
    keysDotFree (extractFile h sd file).
Proof.
  unfold extractFile. induction (Decls file) as [|d decls IH];
    intros sd; simpl; [done|].
  intros [H1 H2]%andb_true_iff Hsd.
  apply IH; [done|]. by apply extractDecl_keys.
Qed.

Lemma extractWalk_keys (h : Heap) (entries : list WalkEntry) :
  forall sd,
    identNames entries = true -> keysDotFree sd ->
    keysDotFree (extractWalk h entries sd).1.
Proof.
  induction entries as [|e entries IH]; intros sd; simpl; [done|].
  intros [H1 H2]%andb_true_iff Hsd.
  destruct (skipsEntry e).
  - destruct (weErr e); [exact Hsd | by apply IH].
  - unfold entryIdent in H1. destruct (weParse e) as [err|file].
    + by apply IH.
    + apply IH; [done|]. by apply extractFile_keys.
Qed.

(** The walk error of the extractor is that of the first erroneous entry,
    whatever the heap and whatever the run wrote in between. *)
Lemma walkAgain_error (h1 h2 : Heap) (w1 w2 : list WalkEntry) :
  walkAgain w1 w2 ->
  forall sd1 sd2,
    (extractWalk h1 w1 sd1).2 = (extractWalk h2 w2 sd2).2.
Proof.
  induction 1 as [|e l1 l2 _ IH|e l1 l2 Hnone _ IH
                  |e1 e2 l1 l2 _ Hn1 Hn2 _ IH]; intros sd1 sd2; simpl.
  - reflexivity.
  - destruct (skipsEntry e).
    + destruct (weErr e); [reflexivity | apply IH].
    + destruct (weParse e); apply IH.
  - rewrite Hnone. destruct (skipsEntry e); [apply IH|].
    destruct (weParse e); apply IH.
  - rewrite Hn1, Hn2.
    destruct (skipsEntry e1), (skipsEntry e2);
      try destruct (weParse e1); try destruct (weParse e2); apply IH.
Qed.

Lemma schemaOf_dotted (sd : gmap string (list Field)) (k : string) :
  keysDotFree sd -> containsByte "."%char k = true -> schemaOf sd k = [].
Proof.
  intros Hsd Hk. unfold schemaOf.
  destruct (sd !! k) as [fs|] eqn:E; [|reflexivity].
  apply Hsd in E. unfold dotFree in E. rewrite Hk in E. discriminate.
Qed.

(** With identifiers as keys, no lookup of a qualified type name hits:
    the parse of a service does not depend on the record schema. *)
Lemma parseDir_schema_free (sd : gmap string (list Field))
    (entries : list WalkEntry) :
  keysDotFree sd -> parseDir entries sd = parseDir entries ∅.
Proof.
  intros Hsd. rewrite parseDir_attach.
  destruct (parseDir entries ∅) as [[ms imps]| |] eqn:E; try reflexivity.
  simpl. do 2 f_equal.
  apply parseDir_provenance in E as [Hall _].
  induction Hall as [|m ms (fn & _ & Hm) _ IH]; simpl; [reflexivity|].
  rewrite IH. f_equal.
  apply parseFunc_Some in Hm
    as (ctx & params & p1 & inp & r0 & rs & out & _ & _ & _ & _ & Hi & _
        & Ho & Ni & No & ->).
  unfold withSchemas. simpl.
  rewrite !(schemaOf_dotted sd), !(schemaOf_dotted ∅);
    eauto using keysDotFree_empty, resolveType_dotted.
Qed.

Lemma generateService_schema_free (sd : gmap string (list Field))
    (appPath moduleName serviceName : string) (entries : list WalkEntry)
    (prod : bool) (w : World) :
  keysDotFree sd ->
  generateService appPath entries moduleName serviceName sd prod w
  = generateService appPath entries moduleName serviceName ∅ prod w.
Proof.
  intros Hsd. unfold generateService.
  by rewrite (parseDir_schema_free sd).
Qed.

Lemma serviceLoop_same (p1 p2 : Project) (sd1 sd2 : gmap string (list Field))
    (appPath moduleName : string) (prod : bool) (entries : list DirEntry) :
  (forall name, serviceWalk p1 name = serviceWalk p2 name) ->
  keysDotFree sd1 -> keysDotFree sd2 ->
  forall w,
    serviceLoop p2 appPath moduleName sd2 prod entries w
    = serviceLoop p1 appPath moduleName sd1 prod entries w.
Proof.
  intros Hw H1 H2.
  induction entries as [|entry entries IH]; intros w; simpl; [reflexivity|].
  unfold bindM. destruct (deIsDir entry).
  - rewrite <- Hw.
    rewrite (generateService_schema_free sd2) by done.
    rewrite (generateService_schema_free sd1) by done.
    destruct (generateService _ _ _ _ _ _ w) as [[u| |] w']; try reflexivity.
    apply IH.
  - simpl. apply IH.
Qed.

Lemma generateAll_same (p1 p2 : Project) (h1 h2 : Heap) (appPath : string)
    (prod : bool) (w : World) :
  sameSource p1 p2 ->
  identNames (rootWalk p1) = true -> identNames (rootWalk p2) = true ->
  generateAll p2 h2 appPath prod w = generateAll p1 h1 appPath prod w.
Proof.
  intros (Hm & Hs & Hw & Hx) Hid1 Hid2.
  unfold generateAll, bindM, liftO. rewrite <- Hm, <- Hs.
  destruct (moduleNameResult p1) as [moduleName| |]; try reflexivity.
  unfold extractStructs.
  rewrite <- (walkAgain_error h1 h2 _ _ Hx ∅ ∅).
  destruct (failIf (extractWalk h1 (rootWalk p1) ∅).2 w) as [[u| |] w'];
    try reflexivity.
  destruct (servicesDir p1) as [[entries| |]|]; try reflexivity.
  apply serviceLoop_same; [done|..];
    (apply extractWalk_keys; [done | apply keysDotFree_empty]).
Qed.

Lemma cleanImports_madeDirs (proj : Project) (appPath : string) (w : World) :
  madeDirs (cleanImports proj appPath w).2 = madeDirs w.
Proof.
  unfold cleanImports, runGoImports, retM.
  destruct (_ || _)%bool; [|reflexivity].
  by destruct (goimportsErr _).
Qed.

(** C3.  Two runs of the whole pipeline over one source tree return the
    same result and do the same to the file system: the same files written
    with the same bytes, the same folders made, [goimports] run over the
    same folder, all in the same order.  The second run reads the same
    manifest, services folder and service directories; its walk of the root
    meets the artifacts of the first run, rewritten where the root held
    them before and new where it did not; it finds the output folder if the
    first run found or made it; its syntax trees live at other addresses.
    Types are named by identifiers, in both walks. *)
Theorem regeneration_is_idempotent (p1 p2 : Project) (h1 h2 : Heap)
    (appPath : string) (prod : bool) :
  sameSource p1 p2 ->
  identNames (rootWalk p1) = true ->
  identNames (rootWalk p2) = true ->
  polycodeExists p2
  = (polycodeExists p1
     || negb (bool_decide
                (madeDirs (GenerateServices p1 h1 appPath prod emptyWorld).2
                 = [])))%bool ->
  GenerateServices p2 h2 appPath prod emptyWorld
  = GenerateServices p1 h1 appPath prod emptyWorld.
Proof.
  intros Hsame Hid1 Hid2. unfold GenerateServices, bindM.
  rewrite (generateAll_same p1 p2 h1 h2) by done.
  destruct (generateAll p1 h1 appPath prod emptyWorld) as [[u| |] w];
    try reflexivity.
  rewrite cleanImports_madeDirs. intros Hex.
  unfold cleanImports. rewrite Hex.
  by destruct (polycodeExists p1), (bool_decide (madeDirs w = [])).
Qed.

(** *** The manifest *)

Lemma anyByte_rev_app (P : ascii -> bool) (s t : string) :
  anyByte P (String.rev_app s t) = (anyByte P s || anyByte P t)%bool.
Proof.
  revert t. induction s as [|c s IH]; intros t; simpl; [reflexivity|].
  rewrite IH. simpl. destruct (P c), (anyByte P s), (anyByte P t); reflexivity.
Qed.

Lemma anyByte_rev (P : ascii -> bool) (s : string) :
  anyByte P (String.rev s) = anyByte P s.
Proof.
  unfold String.rev. rewrite anyByte_rev_app. simpl. apply orb_false_r.
Qed.

Lemma rev_app_nonempty (s t : string) :
  t <> EmptyString -> String.rev_app s t <> EmptyString.
Proof.
  revert t. induction s as [|c s IH]; intros t Ht; simpl; [exact Ht|].
  apply IH. discriminate.
Qed.

Lemma rev_cons_nonempty (c : ascii) (s : string) :
  String.rev (String c s) <> EmptyString.
Proof. unfold String.rev. simpl. apply rev_app_nonempty. discriminate. Qed.

Lemma closeField_fields (cur : string) :
  anyByte isAsciiSpace cur = false ->
  Forall (fun f => f <> EmptyString /\ anyByte isAsciiSpace f = false)
    (closeField cur).
Proof.
  intros Hc. destruct cur as [|c cur]; simpl; constructor; [|constructor].
  split; [apply rev_cons_nonempty|]. by rewrite anyByte_rev.
Qed.

Lemma fieldsLoop_fields (s : string) :
  forall cur,
    anyByte isAsciiSpace cur = false ->
    Forall (fun f => f <> EmptyString /\ anyByte isAsciiSpace f = false)
      (fieldsLoop cur s).
Proof.
  induction s as [|c s IH]; intros cur Hc; simpl.
  - by apply closeField_fields.
  - destruct (isAsciiSpace c) eqn:Ec.
    + apply Forall_app. split; [by apply closeField_fields|].
      by apply IH.
    + apply IH. simpl. by rewrite Ec, Hc.
Qed.

Lemma scanModule_Some (lines : list string) (name : string) :
  scanModule lines = Some name ->
  exists line, line ∈ lines /\ moduleOfLine line = Some name.
Proof.
  induction lines as [|l lines IH]; simpl; [discriminate|].
  destruct (moduleOfLine l) as [n|] eqn:E.
  - intros [= <-]. exists l. split; [by left | done].
  - intros (line & Hin & Hl)%IH. exists line. split; [by right | done].
Qed.

Lemma moduleOfLine_None (l : string) :
  HasPrefix l "module" = false \/ (length (Fields l) < 2)%nat ->
  moduleOfLine l = None.
Proof.
  unfold moduleOfLine. intros [-> | H]; [reflexivity|].
  destruct (HasPrefix l "module"); [|reflexivity].
  destruct (Fields l) as [|f0 [|f1 fs]]; simpl in H; [reflexivity..|lia].
Qed.

Lemma scanModule_None (lines : list string) :
  Forall (fun l => HasPrefix l "module" = false
                   \/ (length (Fields l) < 2)%nat) lines ->
  scanModule lines = None.
Proof.
  induction 1 as [|l lines Hl _ IH]; simpl; [reflexivity|].
  by rewrite (moduleOfLine_None l Hl).
Qed.

(** X1.  [getModuleName] returns the second field of the first scanned line
    that starts with ["module"] and has at least two fields; lines before
    it that lack the prefix or a second field are passed over, and neither
    the lines after it nor a scanner error matter. *)
Theorem getModuleName_first_module_line (m : Manifest)
    (pre post : list string) (line f0 name : string) (more : list string) :
  openErr m = None ->
  scanned m = pre ++ line :: post ->
  Forall (fun l => HasPrefix l "module" = false
                   \/ (length (Fields l) < 2)%nat) pre ->
  HasPrefix line "module" = true ->
  Fields line = f0 :: name :: more ->
  getModuleName m = Ok name.
Proof.
  intros Ho Hs Hpre Hp Hf. unfold getModuleName. rewrite Ho, Hs.
  assert (scanModule (pre ++ line :: post) = Some name) as ->; [|reflexivity].
  clear Hs. induction Hpre as [|l pre Hl _ IH]; simpl.
  - unfold moduleOfLine. by rewrite Hp, Hf.
  - rewrite (moduleOfLine_None l Hl). exact IH.
Qed.

(** X2.  When the manifest opens and no scanned line both starts with
    ["module"] and has two fields, [getModuleName] fails: with the scanner's
    error when it stopped on one, and with "module name not found"
    otherwise. *)
Theorem getModuleName_without_module_line (m : Manifest) :
  openErr m = None ->
  Forall (fun l => HasPrefix l "module" = false
                   \/ (length (Fields l) < 2)%nat) (scanned m) ->
  getModuleName m
  = Err (match scanErr m with
         | Some e => "error reading go.mod file: " +:+ e
         | None => "module name not found in go.mod"
         end).
Proof.
  intros Ho Hall. unfold getModuleName.
  rewrite Ho, (scanModule_None _ Hall). by destruct (scanErr m).
Qed.

(** X3.  On a manifest of ASCII lines, the module name [getModuleName]
    returns is not empty and holds no white space; the line it comes from
    starts with ["module"], but its first field need not be that word. *)
Theorem getModuleName_is_a_field (m : Manifest) (name : string) :
  Forall (fun l => allASCII l = true) (scanned m) ->
  getModuleName m = Ok name ->
  name <> EmptyString
  /\ anyByte isAsciiSpace name = false
  /\ exists line, line ∈ scanned m /\ HasPrefix line "module" = true
                  /\ Fields line !! 1%nat = Some name.
Proof.
  intros Hascii. unfold getModuleName.
  destruct (openErr m); [discriminate|].
  destruct (scanModule (scanned m)) as [n|] eqn:E;
    [|destruct (scanErr m); discriminate].
  intros [= ->]. apply scanModule_Some in E as (line & Hin & Hl).
  unfold moduleOfLine in Hl.
  destruct (HasPrefix line "module") eqn:Hp; [|discriminate].
  destruct (Fields line) as [|f0 [|f1 fs]] eqn:Hf; try discriminate.
  injection Hl as ->.
  assert (Forall (fun f => f <> EmptyString
                           /\ anyByte isAsciiSpace f = false)
            (f0 :: name :: fs)) as Hall.
  { rewrite <- Hf. unfold Fields.
    rewrite Forall_forall in Hascii. rewrite (Hascii line Hin).
    by apply fieldsLoop_fields. }
  apply Forall_cons in Hall as [_ Hall].
  apply Forall_cons in Hall as [[Hne Hsp] _].
  split; [exact Hne|]. split; [exact Hsp|].
  exists line. rewrite Hf. by repeat split.
Qed.

(** *** Struct names *)

Lemma sapp_nil_r (s : string) : s +:+ EmptyString = s.
Proof.
  induction s as [|c s IH]; [reflexivity|].
  change (String c s +:+ EmptyString) with (String c (s +:+ EmptyString)).
  by rewrite IH.
Qed.

Lemma sapp_assoc (s t u : string) : (s +:+ t) +:+ u = s +:+ t +:+ u.
Proof.
  induction s as [|c s IH]; [reflexivity|].
  change (String c (s +:+ t) +:+ u = String c (s +:+ t +:+ u)).
  change (String c ((s +:+ t) +:+ u) = String c (s +:+ t +:+ u)).
  by rewrite IH.
Qed.

Lemma rev_app_eq (s : string) :
  forall t, String.rev_app s t = String.rev s +:+ t.
Proof.
  unfold String.rev. induction s as [|c s IH]; intros t; simpl; [reflexivity|].
  rewrite (IH (String c t)), (IH (String c EmptyString)), sapp_assoc.
  reflexivity.
Qed.

Lemma rev_cons (c : ascii) (s : string) :
  String.rev (String c s) = String.rev s +:+ String c EmptyString.
Proof. unfold String.rev at 1. simpl. apply rev_app_eq. Qed.

Lemma capitalize_ascii (c : ascii) (r : string) :
  isASCII c = true -> capitalize (String c r) = String (upperByte c) r.
Proof.
  intros Hc. unfold capitalize, runeString, ToUpper. rewrite Hc. simpl.
  rewrite Hc. reflexivity.
Qed.

Lemma capitalize_snoc (w : string) (c : ascii) :
  w <> EmptyString ->
  capitalize (w +:+ String c EmptyString)
  = capitalize w +:+ String c EmptyString.
Proof.
  destruct w as [|a w]; [done|]. intros _.
  change (String a w +:+ String c EmptyString)
    with (String a (w +:+ String c EmptyString)).
  unfold capitalize. by rewrite sapp_assoc.
Qed.

Lemma splitGo_pascal (s : string) :
  forall cur,
    allASCII s = true ->
    Join (map capitalize (splitGo "-"%char cur s))
    = match cur with
      | EmptyString => pascalWalk true s
      | String _ _ => capitalize (String.rev cur) +:+ pascalWalk false s
      end.
Proof.
  induction s as [|c s IH]; intros cur Hs; simpl.
  - rewrite sapp_nil_r. by destruct cur.
  - simpl in Hs. apply andb_true_iff in Hs as [Hc Hs].
    destruct (Ascii.eqb c "-") eqn:E; simpl.
    + rewrite (IH EmptyString Hs). by destruct cur.
    + rewrite (IH (String c cur) Hs). destruct cur as [|a cur].
      * change (String.rev (String c EmptyString))
          with (String c EmptyString).
        by rewrite capitalize_ascii.
      * rewrite (rev_cons c), capitalize_snoc, sapp_assoc;
          [reflexivity | apply rev_cons_nonempty].
Qed.

Lemma toPascalCase_pascalWalk (s : string) :
  allASCII s = true -> toPascalCase s = pascalWalk true s.
Proof. intros Hs. unfold toPascalCase, Split1. by rewrite splitGo_pascal. Qed.

Lemma upperByte_hyphen (c : ascii) :
  Ascii.eqb (upperByte c) "-" = Ascii.eqb c "-".
Proof. destruct c as [[] [] [] [] [] [] [] []]; reflexivity. Qed.

Lemma upperByte_idem (c : ascii) : upperByte (upperByte c) = upperByte c.
Proof. destruct c as [[] [] [] [] [] [] [] []]; reflexivity. Qed.

Lemma upperByte_ascii (c : ascii) : isASCII (upperByte c) = isASCII c.
Proof. destruct c as [[] [] [] [] [] [] [] []]; reflexivity. Qed.

Lemma pascalWalk_no_hyphen (s : string) :
  forall b, containsByte "-"%char (pascalWalk b s) = false.
Proof.
  induction s as [|c s IH]; intros b; simpl; [reflexivity|].
  destruct (Ascii.eqb c "-") eqn:E; [apply IH|]. simpl.
  rewrite IH, orb_false_r. destruct b; [|exact E].
  by rewrite upperByte_hyphen.
Qed.

Lemma pascalWalk_length (s : string) :
  forall b,
    (String.length (pascalWalk b s) + countByte "-"%char s
     = String.length s)%nat.
Proof.
  induction s as [|c s IH]; intros b; simpl; [reflexivity|].
  destruct (Ascii.eqb c "-"); simpl.
  - specialize (IH true). lia.
  - specialize (IH false). lia.
Qed.

Lemma pascalWalk_ascii (s : string) :
  forall b, allASCII s = true -> allASCII (pascalWalk b s) = true.
Proof.
  induction s as [|c s IH]; intros b; simpl; [reflexivity|].
  intros [Hc Hs]%andb_true_iff.
  destruct (Ascii.eqb c "-"); [by apply IH|]. simpl.
  rewrite (IH false Hs), andb_true_r.
  destruct b; [by rewrite upperByte_ascii | exact Hc].
Qed.

Lemma pascalWalk_absorb (s : string) :
  forall b b',
    b = true \/ b' = false ->
    pascalWalk b' (pascalWalk b s) = pascalWalk b s.
Proof.
  induction s as [|c s IH]; intros b b' Hb; simpl; [reflexivity|].
  destruct (Ascii.eqb c "-") eqn:E; [apply IH; by left|].
  simpl.
  assert (Ascii.eqb (if b then upperByte c else c) "-" = false) as ->.
  { destruct b; [by rewrite upperByte_hyphen | exact E]. }
  rewrite (IH false false) by (by right). f_equal.
  destruct b'; [|reflexivity].
  destruct Hb as [-> | ?]; [apply upperByte_idem | discriminate].
Qed.

(** X4.  On an ASCII service name, [toPascalCase] is the one-pass
    transformation that drops every hyphen and puts in upper case the byte
    that starts a word: the struct name holds no hyphen and is shorter than
    the service name by the number of its hyphens. *)
Theorem toPascalCase_drops_hyphens (input : string) :
  allASCII input = true ->
  toPascalCase input = pascalWalk true input
  /\ containsByte "-"%char (toPascalCase input) = false
  /\ (String.length (toPascalCase input) + countByte "-"%char input
      = String.length input)%nat.
Proof.
  intros Hs. rewrite (toPascalCase_pascalWalk input Hs).
  split; [reflexivity|]. split.
  - apply pascalWalk_no_hyphen.
  - apply pascalWalk_length.
Qed.

(** X5.  An ASCII service name and its own struct name get the same struct
    name: [toPascalCase] leaves its results unchanged, so two service
    directories named [s] and [toPascalCase s] collide on the struct. *)
Theorem toPascalCase_fixes_its_results (input : string) :
  allASCII input = true ->
  toPascalCase (toPascalCase input) = toPascalCase input.
Proof.
  intros Hs. rewrite (toPascalCase_pascalWalk input Hs).
  rewrite toPascalCase_pascalWalk by (by apply pascalWalk_ascii).
  apply pascalWalk_absorb. by left.
Qed.

(** *** More on import deduplication *)

Lemma firstSeen_congr (l : list string) :
  forall a b, (forall y, y ∈ a <-> y ∈ b) -> firstSeen a l = firstSeen b l.
Proof using Type.
  induction l as [|x l IH]; intros a b Hab; simpl; [reflexivity|].
  destruct (decide (x ∈ a)) as [Ha|Ha].
  - rewrite decide_True by (by apply Hab). by apply IH.
  - rewrite decide_False by (by rewrite <- Hab). f_equal. apply IH.
    intros y. rewrite !elem_of_cons, Hab. reflexivity.
Qed.

Lemma firstSeen_NoDup (l : list string) :
  forall seen,
    NoDup l -> (forall x, x ∈ l -> x ∉ seen) -> firstSeen seen l = l.
Proof using Type.
  induction l as [|x l IH]; intros seen Hnd Hdis; simpl; [reflexivity|].
  apply NoDup_cons in Hnd as [Hx Hnd].
  rewrite decide_False by (apply Hdis; by left). f_equal.
  apply IH; [exact Hnd|].
  intros y Hy. rewrite elem_of_cons. intros [-> | Hs]; [contradiction|].
  by apply (Hdis y); [right|].
Qed.

Lemma firstSeen_filter (l : list string) :
  forall s1 s2,
    firstSeen (s1 ++ s2) l = filter (fun x => x ∉ s1) (firstSeen s2 l).
Proof using Type.
  induction l as [|x l IH]; intros s1 s2; simpl; [reflexivity|].
  destruct (decide (x ∈ s2)) as [H2|H2].
  - rewrite decide_True by (apply elem_of_app; by right). apply IH.
  - destruct (decide (x ∈ s1)) as [H1|H1].
    + rewrite decide_True by (apply elem_of_app; by left).
      rewrite filter_cons_False by (intros Hn; by apply Hn).
      rewrite <- IH. apply firstSeen_congr.
      intros y. rewrite !elem_of_app, elem_of_cons. split.
      * intros [? | ?]; [by left | right; by right].
      * intros [? | [-> | ?]]; [by left | by left | by right].
    + rewrite decide_False
        by (rewrite elem_of_app; intros [? | ?]; contradiction).
      rewrite filter_cons_True by done. f_equal.
      rewrite <- IH. apply firstSeen_congr.
      intros y. rewrite elem_of_cons, !elem_of_app, elem_of_cons.
      split; (intros [? | [? | ?]];
              [right; by left | by left | right; by right]).
Qed.

Lemma firstSeen_app (l1 l2 : list string) :
  forall seen,
    firstSeen seen (l1 ++ l2)
    = firstSeen seen l1 ++ firstSeen (l1 ++ seen) l2.
Proof using Type.
  induction l1 as [|x l1 IH]; intros seen; simpl; [reflexivity|].
  destruct (decide (x ∈ seen)) as [Hs|Hs].
  - rewrite IH. f_equal. apply firstSeen_congr.
    intros y. rewrite elem_of_cons, !elem_of_app. split.
    + intros [? | ?]; [right; by left | right; by right].
    + intros [-> | [? | ?]]; [by right | by left | by right].
  - simpl. f_equal. rewrite IH. f_equal. apply firstSeen_congr.
    intros y. rewrite elem_of_cons, !elem_of_app, elem_of_cons.
    split; (intros [? | [? | ?]];
            [right; by left | by left | right; by right]).
Qed.

Lemma length_firstSeen (l : list string) :
  forall seen, (length (firstSeen seen l) <= length l)%nat.
Proof.
  induction l as [|x l IH]; intros seen; simpl; [lia|].
  destruct (decide (x ∈ seen)); simpl.
  - specialize (IH seen). lia.
  - specialize (IH (x :: seen)). lia.
Qed.

(** X6.  [unique] leaves a list without repetitions as it is, so applying
    it twice is applying it once; its result is never longer than its
    argument. *)
Theorem unique_fixes_duplicate_free_lists (strs : list string) :
  (NoDup strs -> unique strs = strs)
  /\ unique (unique strs) = unique strs
  /\ (length (unique strs) <= length strs)%nat.
Proof.
  assert (forall l, NoDup l -> unique l = l) as Hfix.
  { intros l Hl. rewrite unique_firstSeen.
    apply firstSeen_NoDup; [exact Hl|]. intros x _. apply not_elem_of_nil. }
  split; [apply Hfix|]. split.
  - apply Hfix. rewrite unique_firstSeen. apply NoDup_firstSeen.
  - rewrite unique_firstSeen. apply length_firstSeen.
Qed.

Lemma unique_over_app (l1 l2 : list string) :
  unique (l1 ++ l2) = unique l1 ++ filter (fun x => x ∉ l1) (unique l2).
Proof.
  rewrite !unique_firstSeen, firstSeen_app. f_equal.
  apply (firstSeen_filter l2 l1 []).
Qed.

(** X7.  Deduplicating the imports of two groups of files collected one
    after the other gives the deduplicated imports of the first group,
    followed by those of the second group that the first does not have. *)
Theorem unique_app (l1 l2 : list string) :
  unique (l1 ++ l2) = unique l1 ++ filter (fun x => x ∉ l1) (unique l2).
Proof.
  rewrite !unique_firstSeen, firstSeen_app. f_equal.
  rewrite <- (firstSeen_filter l2 l1 []).
  apply firstSeen_congr. intros y. by rewrite app_nil_r.
Qed.

(** *** Validation, in full *)

Lemma validate_Ok_params (fn : FuncDecl) (ctx : string) :
  validateFunctionParams fn = Ok ctx ->
  exists params, Params (fnType fn) = Some params /\ (2 <= length params)%nat.
Proof.
  unfold validateFunctionParams.
  destruct (Params (fnType fn)) as [params|]; [|discriminate].
  intros H. exists params. split; [reflexivity|].
  destruct (Nat.ltb_spec (length params) 2); [discriminate | lia].
Qed.

Lemma validate_Panic_selector (fn : FuncDecl) (p : string) :
  validateFunctionParams fn = Panic p ->
  exists p0 ps X Sel,
    Params (fnType fn) = Some (p0 :: ps)
    /\ fieldType p0 = SelectorExpr X Sel /\ isIdent X = false.
Proof.
  unfold validateFunctionParams.
  destruct (Params (fnType fn)) as [params|]; [|discriminate].
  destruct (Nat.ltb_spec (length params) 2); [discriminate|].
  destruct params as [|[ns t] ps]; [simpl in *; lia|]. simpl.
  destruct t as [| X Sel | | | | |]; try discriminate.
  destruct X as [pos q| | | | | |]; simpl; try (intros _; by eauto 10).
  destruct (String.eqb q "polycode"); [|discriminate].
  destruct (String.eqb Sel "ServiceContext"); [discriminate|].
  destruct (String.eqb Sel "WorkflowContext"); discriminate.
Qed.

(** X8.  [validateFunctionParams] accepts a function exactly when it has at
    least two parameter declarations and the first is of type
    [polycode.ServiceContext] or [polycode.WorkflowContext]; the result
    then is "Service" or "Workflow" accordingly. *)
Theorem validateFunctionParams_accepts (fn : FuncDecl) (ctx : string) :
  validateFunctionParams fn = Ok ctx
  <-> (exists params, Params (fnType fn) = Some params
                      /\ (2 <= length params)%nat)
      /\ ((ctx = "Service" /\ capability fn = Some "ServiceContext")
          \/ (ctx = "Workflow" /\ capability fn = Some "WorkflowContext")).
Proof.
  split.
  - intros H. split; [|by apply validateFunctionParams_Ok].
    unfold validateFunctionParams in H.
    destruct (Params (fnType fn)) as [params|]; [|discriminate].
    exists params. split; [reflexivity|].
    destruct (Nat.ltb_spec (length params) 2); [discriminate | lia].
  - intros [(params & Hp & Hlen) Hcap].
    unfold validateFunctionParams, capability in *. rewrite Hp in *.
    destruct (Nat.ltb_spec (length params) 2); [lia|].
    destruct params as [|[ns t] ps]; [simpl in Hlen; lia|]. simpl.
    destruct t as [| X Sel | | | | |];
      try (destruct Hcap as [[_ ?] | [_ ?]]; discriminate).
    destruct X as [pos q| | | | | |];
      try (destruct Hcap as [[_ ?] | [_ ?]]; discriminate).
    simpl. destruct (String.eqb q "polycode");
      [|destruct Hcap as [[_ ?] | [_ ?]]; discriminate].
    destruct Hcap as [[-> Hs] | [-> Hs]]; injection Hs as ->; reflexivity.
Qed.

(** X9.  Every error of [validateFunctionParams] names the function, and it
    panics only on a first parameter whose type is a qualified reference
    with a qualifier that is not an identifier. *)
Theorem validateFunctionParams_failures (fn : FuncDecl) :
  (forall msg, validateFunctionParams fn = Err msg ->
               mentions msg (fnName fn))
  /\ (forall p, validateFunctionParams fn = Panic p ->
        exists p0 ps X Sel,
          Params (fnType fn) = Some (p0 :: ps)
          /\ fieldType p0 = SelectorExpr X Sel /\ isIdent X = false).
Proof.
  pose proof (errors_name_the_function (fnName fn)) as [Hm1 Hm2].
  unfold validateFunctionParams.
  destruct (Params (fnType fn)) as [params|];
    [|split; [by intros msg [= <-] | intros ? ?; discriminate]].
  destruct (Nat.ltb_spec (length params) 2);
    [split; [by intros msg [= <-] | intros ? ?; discriminate]|].
  destruct params as [|[ns t] ps]; [simpl in *; lia|]. simpl.
  destruct t as [| X Sel | | | | |];
    try (split; [by intros msg [= <-] | intros ? ?; discriminate]).
  destruct X as [pos q| | | | | |]; simpl;
    try (split; [intros ? ?; discriminate | intros p _; by eauto 10]).
  destruct (String.eqb q "polycode");
    [|split; [by intros msg [= <-] | intros ? ?; discriminate]].
  destruct (String.eqb Sel "ServiceContext");
    [split; intros ? ?; discriminate|].
  destruct (String.eqb Sel "WorkflowContext");
    [split; intros ? ?; discriminate|].
  split; [by intros msg [= <-] | intros ? ?; discriminate].
Qed.

(** *** Freedom from panics *)

Lemma selectorName_plain (e : Expr) :
  match e with SelectorExpr X _ => isIdent X | _ => true end = true ->
  exists n, selectorName e = Ok n.
Proof.
  destruct e as [| X Sel | | | | |]; simpl; eauto.
  destruct X; try discriminate. simpl. eauto.
Qed.

Lemma resolveType_plain (t : Expr) :
  plainQualifier t = true -> exists r, resolveType t = Ok r.
Proof.
  intros H. destruct t as [| X Sel | star X | | | |]; simpl in *.
  - eauto.
  - destruct X; try discriminate. simpl. eauto.
  - destruct (selectorName_plain X) as [n ->]; [|simpl; eauto].
    destruct X; try reflexivity. exact H.
  - eauto.
  - eauto.
  - eauto.
  - eauto.
Qed.

Lemma parseFunc_safe (sd : gmap string (list Field)) (fn : FuncDecl) :
  safeFunc fn -> isPanic (parseFunc sd fn) = false.
Proof.
  intros (c & rest & Hn & Hsafe). unfold parseFunc. rewrite Hn.
  destruct (IsLower c); [reflexivity|].
  destruct (Hsafe eq_refl) as [Hparams (r0 & rs & Hr & Hr0)].
  destruct (validateFunctionParams fn) as [ctx| |p] eqn:Hv; simpl;
    [|reflexivity|].
  - apply validate_Ok_params in Hv as (params & Hp & Hlen).
    rewrite Hp. specialize (Hparams params Hp).
    destruct params as [|p0 [|p1 ps]]; simpl in Hlen; try lia. simpl.
    apply Forall_cons in Hparams as [_ Hparams].
    apply Forall_cons in Hparams as [Hp1 _].
    destruct (resolveType_plain _ Hp1) as [inp ->]. simpl. rewrite Hr.
    destruct (resolveType_plain _ Hr0) as [out ->]. simpl.
    by destruct (nonEmpty inp.1 && nonEmpty out.1)%bool.
  - apply validate_Panic_selector in Hv
      as (p0 & ps & X & Sel & Hp & Ht & Hx).
    specialize (Hparams _ Hp). apply Forall_cons in Hparams as [H0 _].
    rewrite Ht in H0. simpl in H0. congruence.
Qed.

Lemma parseDecls_safe (sd : gmap string (list Field)) (decls : list Decl) :
  forall acc,
    (forall fn, FuncD fn ∈ decls -> Recv fn = None -> safeFunc fn) ->
    isPanic (parseDecls sd decls acc) = false.
Proof.
  induction decls as [|d decls IH]; intros acc Hsafe; simpl; [reflexivity|].
  assert (forall acc', isPanic (parseDecls sd decls acc') = false) as IH'.
  { intros acc'. apply IH. intros fn Hin. apply Hsafe. by right. }
  destruct d as [fn| |]; try apply IH'.
  destruct (Recv fn) eqn:Er; [apply IH'|].
  pose proof (parseFunc_safe sd fn (Hsafe fn (list_elem_of_here _ _) Er)) as Hf.
  destruct (parseFunc sd fn) as [r| |]; simpl; [apply IH'|reflexivity|done].
Qed.

(** X10.  [parseDir] does not panic on a walk whose free functions all have
    a name and, unless it starts with a lower-case byte, only plain
    qualified types among their parameters and a first result of plain
    type: what an error-free parse of Go source gives for every function
    that declares a result. *)
Theorem parseDir_does_not_panic (sd : gmap string (list Field))
    (entries : list WalkEntry) :
  (forall fn, declaredIn entries fn -> safeFunc fn) ->
  isPanic (parseDir entries sd) = false.
Proof.
  intros Hsafe. unfold parseDir.
  assert (forall st, isPanic (parseWalk sd entries st) = false) as Hw.
  { induction entries as [|e entries IH]; intros st; simpl; [reflexivity|].
    assert (forall st', isPanic (parseWalk sd entries st') = false) as IH'.
    { apply IH. intros fn (e0 & file & Hin & ?). apply Hsafe.
      exists e0, file. split; [by right | done]. }
    unfold parseVisit. destruct (weErr e); [reflexivity|].
    destruct (isSourceFile (weName e)); [|apply IH'].
    destruct (weParse e) as [err|node] eqn:Ep; [reflexivity|]. simpl.
    pose proof (parseDecls_safe sd (Decls node) st.1) as Hd.
    destruct (parseDecls sd (Decls node) st.1) as [ms| |]; simpl;
      [apply IH' | reflexivity|].
    apply Hd. intros fn Hin Hr. apply Hsafe.
    exists e, node. split; [by left | done]. }
  specialize (Hw ([], [])).
  by destruct (parseWalk sd entries ([], [])).
Qed.

(** *** Exported functions and the name test *)

(** The comment on the name test reads "check if function name starts with
    simple letter", and the test is [unicode.IsLower(rune(OriginalName[0]))]:
    it reads the first byte of the name where the first letter may take
    several.  On a name with an ASCII initial the two agree. *)
Lemma exported_ascii_passes (fn : FuncDecl) (c : ascii) (rest : string) :
  fnName fn = String c rest -> isASCII c = true ->
  exported fn -> passesNameTest fn.
Proof.
  intros Hn Hc He. exists c, rest. split; [exact Hn|].
  unfold exported, IsExported in He. rewrite Hn in He.
  assert (DecodeRune (String c rest) = byteZ c) as Hd.
  { unfold DecodeRune, byteZ. unfold isASCII in Hc. apply N.ltb_lt in Hc.
    destruct (Z.ltb_spec (Z.of_N (byteN c)) 128); [reflexivity | lia]. }
  rewrite Hd in He. clear Hd Hn. revert Hc He.
  destruct c as [[] [] [] [] [] [] [] []]; vm_compute; intros Hc He;
    first [reflexivity | discriminate Hc | discriminate He].
Qed.

Lemma validate_Err_mentions (fn : FuncDecl) (msg : string) :
  validateFunctionParams fn = Err msg -> mentions msg (fnName fn).
Proof.
  pose proof (errors_name_the_function (fnName fn)) as [Hm1 Hm2].
  unfold validateFunctionParams.
  destruct (Params (fnType fn)) as [params|]; [|by intros [= <-]].
  destruct (Nat.ltb_spec (length params) 2); [by intros [= <-]|].
  destruct params as [|[ns t] ps]; [simpl in *; lia|]. simpl.
  destruct t as [| X Sel | | | | |]; try by intros [= <-].
  destruct X as [pos q| | | | | |]; simpl; try discriminate.
  destruct (String.eqb q "polycode"); [|by intros [= <-]].
  destruct (String.eqb Sel "ServiceContext"); [discriminate|].
  destruct (String.eqb Sel "WorkflowContext"); [discriminate|].
  by intros [= <-].
Qed.

(** A free function that passes the name test and has fewer than two
    parameters, or a first parameter that does not name one of the two
    contexts, ends the parse of the declarations with an error that names
    it.  The qualifier of a qualified first parameter is an identifier, as
    in every type name the Go grammar admits. *)
Lemma rejected_function_fails_the_parse (sd : gmap string (list Field))
    (fn : FuncDecl) (decls : list Decl) (acc : list MethodInfo) :
  Recv fn = None -> passesNameTest fn ->
  (forall p0 ps, Params (fnType fn) = Some (p0 :: ps) ->
                 plainQualifier (fieldType p0) = true) ->
  (numParams (Params (fnType fn)) < 2)%nat
  \/ (capability fn <> Some "ServiceContext"
      /\ capability fn <> Some "WorkflowContext") ->
  exists msg,
    parseDecls sd (FuncD fn :: decls) acc = Err msg
    /\ mentions msg (fnName fn).
Proof.
  intros Hr Hn Hq Hbad.
  destruct (validateFunctionParams fn) as [ctx|msg|p] eqn:Hv.
  - exfalso. pose proof (validate_Ok_params _ _ Hv) as (params & Hp & Hlen).
    destruct Hbad as [Hfew | [Hs Hw]].
    + rewrite Hp in Hfew. pose proof (length_le_numParams params). lia.
    + apply validateFunctionParams_Ok in Hv as [[_ Hc] | [_ Hc]]; congruence.
  - exists msg. split; [by apply rejection_aborts_parse|].
    by apply validate_Err_mentions.
  - exfalso. apply validate_Panic_selector in Hv
      as (p0 & ps & X & Sel & Hp & Ht & Hx).
    specialize (Hq _ _ Hp). rewrite Ht in Hq. simpl in Hq. congruence.
Qed.

(** And the parse of a service that declares such a function in one of its
    source files does not succeed. *)
Lemma rejected_function_fails_parseDir (sd : gmap string (list Field))
    (entries : list WalkEntry) (e : WalkEntry) (file : File)
    (fn : FuncDecl) :
  e ∈ entries -> isSourceFile (weName e) = true ->
  weParse e = inr file -> FuncD fn ∈ Decls file ->
  Recv fn = None -> passesNameTest fn ->
  (forall p0 ps, Params (fnType fn) = Some (p0 :: ps) ->
                 plainQualifier (fieldType p0) = true) ->
  (numParams (Params (fnType fn)) < 2)%nat
  \/ (capability fn <> Some "ServiceContext"
      /\ capability fn <> Some "WorkflowContext") ->
  isOk (parseDir entries sd) = false.
Proof.
  intros Hin Hs Hp Hfn Hr Hn Hq Hbad.
  destruct (parseDir entries sd) as [[ms imps]| |] eqn:Hdir; try reflexivity.
  exfalso.
  destruct (parseDir_Ok_all _ _ _ _ _ _ _ Hdir Hin Hs Hp Hfn Hr)
    as (r & Hf & _).
  destruct (rejected_function_fails_the_parse sd fn [] [] Hr Hn Hq Hbad)
    as (msg & Hd & _).
  simpl in Hd. rewrite Hr, Hf in Hd. simpl in Hd. discriminate.
Qed.

(** A name whose first letter takes three or four bytes in UTF-8 starts
    with a byte from E0 to F4, a lower-case letter of Latin-1 when taken as
    a rune: the function is skipped, whatever the letter. *)
Lemma long_initial_skipped (sd : gmap string (list Field)) (fn : FuncDecl)
    (c : ascii) (rest : string) :
  fnName fn = String c rest ->
  (224 <= byteN c)%N -> (byteN c <= 244)%N ->
  parseFunc sd fn = Ok None.
Proof.
  intros Hn Hlo Hhi. unfold parseFunc. rewrite Hn.
  assert (IsLower c = true) as ->; [|reflexivity].
  unfold IsLower, inRange.
  assert (N.leb 223 (byteN c) = true) as -> by (apply N.leb_le; lia).
  assert (N.leb (byteN c) 246 = true) as -> by (apply N.leb_le; lia).
  simpl. by rewrite orb_true_r.
Qed.

(** C5 (the code departs from it).  [func Act()], its name written with the
    initial U+1E00 (LATIN CAPITAL LETTER A WITH RING BELOW), is an exported
    free function without parameters.  [validateFunctionParams] would
    reject it by name, but [parseDir] never asks: the first byte of the
    name, E1, is a lower-case letter when taken as a rune, the function is
    skipped as if it were unexported, and the parse succeeds without it,
    where the specification has a parse failure naming the function. *)
Theorem exported_function_escapes_validation
    (sd : gmap string (list Field)) :
  exported fnRingBare
  /\ Recv fnRingBare = None
  /\ numParams (Params (fnType fnRingBare)) = 0%nat
  /\ validateFunctionParams fnRingBare = Err (notEnoughParams ringName)
  /\ parseFunc sd fnRingBare = Ok None
  /\ parseDir [goFile "svc.go" [] [FuncD fnRingBare]] sd = Ok ([], []).
Proof.
  split; [reflexivity|].
  split; [reflexivity|].
  split; [reflexivity|].
  split; [reflexivity|].
  split; reflexivity.
Qed.

(** C6 (the code departs from it).  [func Act(ctx polycode.ServiceContext,
    req *pkg.Req) (pkg.Resp, error)], its name written with the initial
    U+1E00, is an exported free function of the shape the specification
    describes, and it passes the validation of its first parameter.  The
    name test reads the byte E1 as a lower-case letter, the function is
    skipped and [parseDir] returns no method record for it; the same
    function under the name [DoThing] is recorded. *)
Theorem exported_function_not_recorded (sd : gmap string (list Field)) :
  exported fnRing
  /\ Recv fnRing = None
  /\ fnType fnRing = fnType fnDoThing
  /\ validateFunctionParams fnRing = Ok "Service"
  /\ parseFunc sd fnRing = Ok None
  /\ parseDir [goFile "svc.go" [] [FuncD fnRing]] sd = Ok ([], [])
  /\ (exists m,
        parseDir [goFile "svc.go" [] [FuncD fnDoThing]] sd = Ok ([m], [])
        /\ OriginalName m = "DoThing").
Proof.
  repeat split; try reflexivity.
  eexists. split; reflexivity.
Qed.

(** *** What the convention parser looks at, and in which order *)

Lemma parseDecls_filter (sd : gmap string (list Field)) (decls : list Decl) :
  forall acc,
    parseDecls sd (List.filter conventionDecl decls) acc
    = parseDecls sd decls acc.
Proof.
  induction decls as [|d decls IH]; intros acc; simpl; [reflexivity|].
  destruct d as [fn| |]; simpl; try apply IH.
  destruct (Recv fn) eqn:Er; [apply IH|].
  destruct (fnName fn) as [|c rest] eqn:En.
  - simpl. rewrite Er. unfold parseFunc. rewrite En. reflexivity.
  - destruct (IsLower c) eqn:Ec; simpl.
    + unfold parseFunc. rewrite En, Ec. simpl. apply IH.
    + rewrite Er. by destruct (parseFunc sd fn) as [r| |]; simpl.
Qed.

Lemma parseWalk_filter (sd : gmap string (list Field))
    (entries : list WalkEntry) :
  forall st,
    parseWalk sd (List.filter parserLooksAt entries) st
    = parseWalk sd entries st.
Proof.
  induction entries as [|e entries IH]; intros st; simpl; [reflexivity|].
  unfold parserLooksAt at 1, parseVisit.
  destruct (weErr e) as [err|] eqn:Ee; simpl.
  - unfold parseVisit. by rewrite Ee.
  - destruct (isSourceFile (weName e)) eqn:Es; simpl; [|apply IH].
    unfold parseVisit. rewrite Ee, Es.
    destruct (weParse e) as [err|node]; [reflexivity|]. simpl.
    destruct (parseDecls sd (Decls node) st.1); simpl; [apply IH|done..].
Qed.

(** X11.  Only erroneous entries and Go source files that are not tests
    bear on what [parseDir] returns, and in a file only the free functions
    whose name does not start with a lower-case byte: dropping every other
    entry from the walk, or every other declaration from a file, changes
    nothing, whatever those entries and declarations hold. *)
Theorem parseDir_ignores_the_rest (sd : gmap string (list Field)) :
  (forall entries,
      parseDir (List.filter parserLooksAt entries) sd = parseDir entries sd)
  /\ (forall decls acc,
        parseDecls sd (List.filter conventionDecl decls) acc
        = parseDecls sd decls acc).
Proof.
  split; [|apply parseDecls_filter].
  intros entries. unfold parseDir. by rewrite parseWalk_filter.
Qed.

(** X12.  One erroneous entry, or one source file that does not parse,
    and [parseDir] does not succeed, whatever else the directory holds. *)
Theorem parseDir_fails_on_a_bad_file (sd : gmap string (list Field))
    (entries : list WalkEntry) (e : WalkEntry) :
  e ∈ entries ->
  is_Some (weErr e)
  \/ (isSourceFile (weName e) = true /\ exists err, weParse e = inl err) ->
  isOk (parseDir entries sd) = false.
Proof.
  intros Hin Hbad. unfold parseDir.
  assert (forall st, isOk (parseWalk sd entries st) = false) as Hw.
  { induction Hin as [e entries|e e0 entries _ IH]; intros st; simpl.
    - unfold parseVisit.
      destruct Hbad as [[err ->] | (Hs & err & Hp)]; [reflexivity|].
      destruct (weErr e); [reflexivity|]. by rewrite Hs, Hp.
    - destruct (parseVisit sd e0 st) as [st'| |]; simpl;
        [by apply IH | reflexivity | reflexivity]. }
  specialize (Hw ([], [])).
  by destruct (parseWalk sd entries ([], [])).
Qed.

Lemma parseDecls_shift (sd : gmap string (list Field)) (decls : list Decl)
    (pre : list MethodInfo) :
  forall acc,
    parseDecls sd decls (pre ++ acc)
    = mapO (app pre) (parseDecls sd decls acc).
Proof.
  induction decls as [|d decls IH]; intros acc; simpl; [reflexivity|].
  destruct d as [fn| |]; try apply IH.
  destruct (Recv fn); [apply IH|].
  destruct (parseFunc sd fn) as [[m|]| |]; simpl; try reflexivity;
    [|apply IH].
  rewrite <- IH. by rewrite app_assoc.
Qed.

Lemma parseWalk_shift (sd : gmap string (list Field))
    (entries : list WalkEntry) (pre : list MethodInfo) (ipre : list string) :
  forall st,
    parseWalk sd entries (pre ++ st.1, ipre ++ st.2)
    = mapO (fun r => (pre ++ r.1, ipre ++ r.2)) (parseWalk sd entries st).
Proof.
  induction entries as [|e entries IH]; intros [ms imps]; simpl;
    [reflexivity|].
  unfold parseVisit. destruct (weErr e); [reflexivity|].
  destruct (isSourceFile (weName e)); [|apply (IH (ms, imps))].
  destruct (weParse e) as [err|node]; [reflexivity|]. simpl.
  rewrite parseDecls_shift.
  destruct (parseDecls sd (Decls node) ms) as [ms'| |]; simpl;
    try reflexivity.
  rewrite <- (IH (ms', _)). simpl. by rewrite app_assoc.
Qed.

Lemma parseWalk_app (sd : gmap string (list Field))
    (l1 l2 : list WalkEntry) :
  forall st,
    parseWalk sd (l1 ++ l2) st
    = parseWalk sd l1 st ≫= parseWalk sd l2.
Proof.
  induction l1 as [|e l1 IH]; intros st; simpl; [reflexivity|].
  destruct (parseVisit sd e st) as [st'| |]; simpl; [apply IH|done..].
Qed.

(** X13.  The methods of a walk are those of its first part followed by
    those of the rest, in declaration order; its imports are the imports of
    the first part followed by the imports of the rest that the first part
    does not have. *)
Theorem parseDir_app (sd : gmap string (list Field))
    (l1 l2 : list WalkEntry) (ms1 ms2 : list MethodInfo)
    (imps1 imps2 : list string) :
  parseDir l1 sd = Ok (ms1, imps1) ->
  parseDir l2 sd = Ok (ms2, imps2) ->
  parseDir (l1 ++ l2) sd
  = Ok (ms1 ++ ms2, imps1 ++ filter (fun x => x ∉ imps1) imps2).
Proof.
  intros H1 H2.
  pose proof (parseDir_provenance _ _ _ _ H1) as [_ Hi1].
  pose proof (parseDir_provenance _ _ _ _ H2) as [_ Hi2].
  unfold parseDir in H1, H2 |- *.
  destruct (parseWalk sd l1 ([], [])) as [[m1 c1]| |] eqn:E1;
    try discriminate.
  destruct (parseWalk sd l2 ([], [])) as [[m2 c2]| |] eqn:E2;
    try discriminate.
  simpl in H1, H2. injection H1 as <- <-. injection H2 as <- <-.
  pose proof (parseWalk_provenance _ _ _ _ E1) as [_ Hc1].
  pose proof (parseWalk_provenance _ _ _ _ E2) as [_ Hc2].
  simpl in Hc1, Hc2. subst c1 c2.
  rewrite parseWalk_app, E1. simpl.
  pose proof (parseWalk_shift sd l2 m1 (collectedImports l1) ([], [])) as Hs.
  simpl in Hs. rewrite !app_nil_r in Hs. rewrite Hs, E2. simpl.
  rewrite unique_over_app. do 3 f_equal.
  apply list_filter_iff. intros x.
  rewrite unique_firstSeen, elem_of_firstSeen.
  split; [intros Hx [Hin _]; by apply Hx|].
  intros Hx Hin. apply Hx. split; [exact Hin | apply not_elem_of_nil].
Qed.

(** X14.  Every method record [parseDir] returns has the lower-cased
    original name as its name, an original name that does not start with a
    lower-case byte, and qualified input and output type names: both hold a
    dot. *)
Theorem parseDir_method_invariants (sd : gmap string (list Field))
    (entries : list WalkEntry) (ms : list MethodInfo) (imps : list string) :
  parseDir entries sd = Ok (ms, imps) ->
  Forall (fun m =>
            mName m = ToLower (OriginalName m)
            /\ (exists c rest, OriginalName m = String c rest
                               /\ IsLower c = false)
            /\ containsByte "."%char (InputType m) = true
            /\ containsByte "."%char (OutputType m) = true) ms.
Proof.
  intros H. apply parseDir_provenance in H as [Hall _].
  eapply Forall_impl; [exact Hall|].
  intros m (fn & _ & Hm).
  apply parseFunc_Some in Hm
    as (ctx & params & p1 & inp & r0 & rs & out & Hexp & _ & _ & _ & Hi & _
        & Ho & Ni & No & ->).
  simpl. split; [reflexivity|]. split; [exact Hexp|].
  split; eauto using resolveType_dotted.
Qed.

(** X15.  With the record schema the extractor builds from declarations
    named by identifiers, no method gets a schema: the extractor keys the
    map by bare type names, the parser looks up qualified ones, and
    [parseDir] returns what it returns with the empty map. *)
Theorem schemas_are_never_attached (h : Heap) (walk entries : list WalkEntry) :
  identNames walk = true ->
  parseDir entries (extractStructs h walk).1 = parseDir entries ∅
  /\ (forall ms imps,
        parseDir entries (extractStructs h walk).1 = Ok (ms, imps) ->
        Forall (fun m => InputSchema m = [] /\ OutputSchema m = []) ms).
Proof.
  intros Hid.
  assert (parseDir entries (extractStructs h walk).1 = parseDir entries ∅)
    as E.
  { apply parseDir_schema_free, extractWalk_keys;
      [exact Hid | apply keysDotFree_empty]. }
  split; [exact E|]. rewrite E. intros ms imps H.
  apply parseDir_provenance in H as [Hall _].
  eapply Forall_impl; [exact Hall|].
  intros m (fn & _ & Hm).
  apply parseFunc_Some in Hm
    as (ctx & params & p1 & inp & r0 & rs & out & _ & _ & _ & _ & _ & _
        & _ & _ & _ & ->).
  simpl. unfold schemaOf. by rewrite !lookup_empty.
Qed.

(** *** More on the record extractor *)

Lemma extractFile_fold (h : Heap) (file : File) :
  forall sd,
    extractFile h sd file = fold_left (extractSpec h) (fileSpecs file) sd.
Proof.
  unfold extractFile, fileSpecs.
  induction (Decls file) as [|d decls IH]; intros sd; simpl; [reflexivity|].
  rewrite fold_left_app, IH. f_equal.
  destruct d as [|g|]; try reflexivity. simpl. by destruct (Tok g).
Qed.

Lemma extractWalk_fold (h : Heap) (entries : list WalkEntry) :
  forall sd,
    (extractWalk h entries sd).1
    = fold_left (extractSpec h) (visitedSpecs entries) sd.
Proof.
  induction entries as [|e entries IH]; intros sd; simpl; [reflexivity|].
  unfold skipsEntry at 1.
  destruct (weErr e) as [err|] eqn:Ee; simpl; [reflexivity|].
  unfold skipsEntry. rewrite Ee. simpl.
  destruct (weIsDir e || negb (HasSuffix (wePath e) ".go"))%bool;
    [apply IH|].
  destruct (weParse e) as [err|file]; [apply IH|].
  by rewrite fold_left_app, IH, extractFile_fold.
Qed.

Lemma extractSpec_lookup (h : Heap) (sd : gmap string (list Field))
    (name : string) (spec : Spec) :
  extractSpec h sd spec !! name
  = match structOf name spec with
    | Some fs => Some (structFields h fs)
    | None => sd !! name
    end.
Proof.
  destruct spec as [| |n t]; try reflexivity.
  destruct t; try reflexivity. simpl.
  case_decide as E.
  - subst. apply lookup_insert_eq.
  - by apply lookup_insert_ne.
Qed.

Lemma fold_extractSpec_lookup (h : Heap) (name : string) (specs : list Spec) :
  forall sd,
    fold_left (extractSpec h) specs sd !! name
    = match lastStruct name specs with
      | Some fs => Some (structFields h fs)
      | None => sd !! name
      end.
Proof.
  unfold lastStruct.
  induction specs as [|spec specs IH] using rev_ind; intros sd;
    [reflexivity|].
  rewrite fold_left_app, omap_app. simpl.
  rewrite extractSpec_lookup.
  destruct (structOf name spec) as [fs|]; simpl.
  - by rewrite last_snoc.
  - rewrite app_nil_r. apply IH.
Qed.

(** X16.  Under a type name the record schema holds the fields of the last
    struct declaration of that name the walk visits, and nothing when there
    is none: a later declaration silently replaces an earlier one, within a
    file and across files. *)
Theorem extractStructs_last_declaration_wins (h : Heap)
    (entries : list WalkEntry) (name : string) :
  (extractStructs h entries).1 !! name
  = structFields h <$> lastStruct name (visitedSpecs entries).
Proof.
  unfold extractStructs.
  rewrite extractWalk_fold, fold_extractSpec_lookup.
  destruct (lastStruct name (visitedSpecs entries)); [reflexivity|].
  apply lookup_empty.
Qed.

Lemma extractWalk_filter (h : Heap) (entries : list WalkEntry) :
  forall sd,
    extractWalk h (List.filter extractorLooksAt entries) sd
    = extractWalk h entries sd.
Proof.
  induction entries as [|e entries IH]; intros sd; simpl; [reflexivity|].
  unfold extractorLooksAt at 1, skipsEntry.
  destruct (weErr e) as [err|] eqn:Ee; simpl.
  - unfold skipsEntry. by rewrite Ee.
  - destruct (weIsDir e || negb (HasSuffix (wePath e) ".go"))%bool eqn:Es;
      simpl; [apply IH|].
    destruct (weParse e) as [err|file] eqn:Ep; [apply IH|]. simpl.
    unfold skipsEntry. rewrite Ee, Ep. simpl. rewrite Es. apply IH.
Qed.

(** X17.  Directories, files that are not Go source and Go files that do
    not parse leave no trace in the record schema: the extractor returns
    the same map and the same error without them. *)
Theorem extractStructs_skips_silently (h : Heap) (entries : list WalkEntry) :
  extractStructs h (List.filter extractorLooksAt entries)
  = extractStructs h entries.
Proof.
  unfold extractStructs.
  induction entries as [|e entries _]; [reflexivity|].
  apply extractWalk_filter.
Qed.

(** X18.  At the first erroneous entry of the walk the extractor stops and
    returns that error together with the map built from the entries before
    it; what follows the entry is not read. *)
Theorem extractStructs_stops_at_walk_error (h : Heap)
    (pre post : list WalkEntry) (e : WalkEntry) (err : string) :
  Forall (fun e0 => weErr e0 = None) pre ->
  weErr e = Some err ->
  extractStructs h (pre ++ e :: post)
  = ((extractStructs h pre).1, Some err).
Proof.
  intros Hpre He. unfold extractStructs. generalize (∅ : gmap string (list Field)).
  induction Hpre as [|e0 pre H0 _ IH]; intros sd; simpl.
  - unfold skipsEntry. by rewrite He.
  - unfold skipsEntry. rewrite H0. simpl.
    destruct (weIsDir e0 || negb (HasSuffix (wePath e0) ".go"))%bool;
      [apply IH|].
    destruct (weParse e0); apply IH.
Qed.

Lemma nested_ident (h1 h2 : Heap) (e : Expr) :
  isIdent e = true -> Fmt.nested h1 e = Fmt.nested h2 e.
Proof. by destruct e. Qed.

Lemma Sprint_shallow (h1 h2 : Heap) (e : Expr) :
  shallow e = true -> Fmt.Sprint h1 e = Fmt.Sprint h2 e.
Proof.
  destruct e as [| X Sel | star X | lb [n|] elt | mp k v | |]; simpl;
    try reflexivity; try discriminate.
  - intros H. by rewrite (nested_ident h1 h2 X).
  - intros H. by rewrite (nested_ident h1 h2 X).
  - intros [Hn He]%andb_true_iff.
    by rewrite (nested_ident h1 h2 n), (nested_ident h1 h2 elt).
  - intros H. by rewrite (nested_ident h1 h2 elt).
  - intros [Hk Hv]%andb_true_iff.
    by rewrite (nested_ident h1 h2 k), (nested_ident h1 h2 v).
Qed.

(** X19.  For a struct whose field types have identifiers as direct
    children ([T], [p.T], [*T], [[]T], [map[K]V]) the recorded schema does
    not depend on where the syntax tree lives: two parses give the same
    strings. *)
Theorem structFields_of_shallow_types (h1 h2 : Heap) (fs : list AstField) :
  Forall (fun f => shallow (fieldType f) = true) fs ->
  structFields h1 fs = structFields h2 fs.
Proof.
  intros Hall. rewrite !structFields_flat_map.
  induction Hall as [|f fs Hf _ IH]; simpl; [reflexivity|].
  rewrite IH. f_equal. unfold fieldOf.
  destruct (fieldNames f); [reflexivity|].
  by rewrite (Sprint_shallow h1 h2).
Qed.

(** *** What a service leaves on disk *)

(** X20.  For a service with at least one method, when rendering,
    marshalling and the file system all succeed, [generateService] makes the
    output folder and the definition folder and writes exactly two files,
    in this order: the rendered adapter at [<app>/.polycode/<service>.go]
    and the marshalled model at the definition path, both computed from the
    same service model, whose struct name is the PascalCase of the service
    name. *)
Theorem generateService_writes_two_artifacts
    (appPath moduleName serviceName : string) (entries : list WalkEntry)
    (sd : gmap string (list Field)) (prod : bool) (m : MethodInfo)
    (ms : list MethodInfo) (imps : list string) (code yml : string)
    (w : World) :
  parseDir entries sd = Ok (m :: ms, imps) ->
  executeTemplate (serviceInfoOf moduleName serviceName prod (m :: ms) imps)
  = Ok code ->
  yamlMarshal (serviceInfoOf moduleName serviceName prod (m :: ms) imps)
  = Ok yml ->
  mkdirAllErr (adapterDir appPath) = None ->
  writeFileErr (adapterPath appPath serviceName) = None ->
  mkdirAllErr (definitionDir appPath) = None ->
  writeFileErr (definitionPath appPath serviceName) = None ->
  generateService appPath entries moduleName serviceName sd prod w
  = (Ok tt,
     {| written := written w
                   ++ [(adapterPath appPath serviceName, code);
                       (definitionPath appPath serviceName, yml)];
        madeDirs := madeDirs w
                    ++ [adapterDir appPath; definitionDir appPath];
        goimported := goimported w |}).
Proof.
  unfold serviceInfoOf, adapterDir, adapterPath, definitionPath,
    definitionDir.
  intros Hp Ht Hy Hm1 Hw1 Hm2 Hw2.
  unfold generateService, writeServiceDefinition, generateServiceCode,
    bindM, liftO, MkdirAll, WriteFile.
  rewrite Hp. simpl. rewrite Ht, Hm1. simpl. rewrite Hw1. simpl.
  rewrite Hm2, Hy. simpl. rewrite Hw2. simpl.
  by rewrite <- !app_assoc.
Qed.

(** X21.  When rendering the adapter fails, [generateService] returns that
    error and has touched nothing: no folder made, no file written. *)
Theorem generateService_render_failure
    (appPath moduleName serviceName : string) (entries : list WalkEntry)
    (sd : gmap string (list Field)) (prod : bool) (m : MethodInfo)
    (ms : list MethodInfo) (imps : list string) (err : string) (w : World) :
  parseDir entries sd = Ok (m :: ms, imps) ->
  executeTemplate (serviceInfoOf moduleName serviceName prod (m :: ms) imps)
  = Err err ->
  generateService appPath entries moduleName serviceName sd prod w
  = (Err err, w).
Proof.
  unfold serviceInfoOf. intros Hp Ht.
  unfold generateService, generateServiceCode, bindM, liftO.
  rewrite Hp. simpl. by rewrite Ht.
Qed.

(** X22.  When marshalling the definition fails, the adapter is already on
    disk: [generateService] returns the error after having written the
    adapter file and made both folders, and the service is left with an
    adapter but no definition. *)
Theorem generateService_marshal_failure
    (appPath moduleName serviceName : string) (entries : list WalkEntry)
    (sd : gmap string (list Field)) (prod : bool) (m : MethodInfo)
    (ms : list MethodInfo) (imps : list string) (code err : string)
    (w : World) :
  parseDir entries sd = Ok (m :: ms, imps) ->
  executeTemplate (serviceInfoOf moduleName serviceName prod (m :: ms) imps)
  = Ok code ->
  yamlMarshal (serviceInfoOf moduleName serviceName prod (m :: ms) imps)
  = Err err ->
  mkdirAllErr (adapterDir appPath) = None ->
  writeFileErr (adapterPath appPath serviceName) = None ->
  mkdirAllErr (definitionDir appPath) = None ->
  generateService appPath entries moduleName serviceName sd prod w
  = (Err err,
     {| written := written w ++ [(adapterPath appPath serviceName, code)];
        madeDirs := madeDirs w
                    ++ [adapterDir appPath; definitionDir appPath];
        goimported := goimported w |}).
Proof.
  unfold serviceInfoOf, adapterDir, adapterPath, definitionDir.
  intros Hp Ht Hy Hm1 Hw1 Hm2.
  unfold generateService, writeServiceDefinition, generateServiceCode,
    bindM, liftO, MkdirAll, WriteFile.
  rewrite Hp. simpl. rewrite Ht, Hm1. simpl. rewrite Hw1. simpl.
  rewrite Hm2, Hy. simpl.
  by rewrite <- !app_assoc.
Qed.

(** *** The services loop *)

(** X24.  Entries of the services folder that are not directories are
    passed over: the loop does the same with and without them. *)
Theorem serviceLoop_skips_files (proj : Project) (appPath moduleName : string)
    (sd : gmap string (list Field)) (prod : bool) (entries : list DirEntry)
    (w : World) :
  serviceLoop proj appPath moduleName sd prod (List.filter deIsDir entries) w
  = serviceLoop proj appPath moduleName sd prod entries w.
Proof.
  revert w. induction entries as [|entry entries IH]; intros w; simpl;
    [reflexivity|].
  destruct (deIsDir entry) eqn:Ed; simpl.
  - unfold bindM. rewrite Ed.
    by destruct (generateService _ _ _ _ _ _ w) as [[u| |] w'].
  - unfold bindM, retM. apply IH.
Qed.

(** X25.  Services are generated in listing order and the first one that
    fails ends the loop: the loop over [l1 ++ l2] is the loop over [l1]
    and, only if that returned without error, the loop over [l2] from the
    world it left; a failure is returned with the world as it was then. *)
Theorem serviceLoop_app (proj : Project) (appPath moduleName : string)
    (sd : gmap string (list Field)) (prod : bool) (l1 l2 : list DirEntry)
    (w : World) :
  serviceLoop proj appPath moduleName sd prod (l1 ++ l2) w
  = (let r := serviceLoop proj appPath moduleName sd prod l1 w in
     if isOk r.1 then serviceLoop proj appPath moduleName sd prod l2 r.2
     else r).
Proof.
  revert w. induction l1 as [|entry l1 IH]; intros w; simpl; [reflexivity|].
  unfold bindM.
  destruct (if deIsDir entry then _ else _) as [[u| |] w']; simpl;
    [apply IH | reflexivity | reflexivity].
Qed.

(** *** The whole run *)

(** X26.  When the manifest yields no module name, or the walk of the root
    meets an erroneous entry, the run fails without having touched the
    disk. *)
Theorem GenerateServices_fails_before_output (proj : Project) (h : Heap)
    (appPath : string) (prod : bool) (w : World) :
  isOk (moduleNameResult proj) = false
  \/ is_Some (extractStructs h (rootWalk proj)).2 ->
  isOk (GenerateServices proj h appPath prod w).1 = false
  /\ (GenerateServices proj h appPath prod w).2 = w.
Proof.
  unfold GenerateServices, generateAll, bindM, liftO.
  destruct (moduleNameResult proj) as [moduleName| |]; simpl;
    [|by intros _..].
  intros [? | [err Herr]]; [discriminate|].
  by rewrite Herr.
Qed.

(** X27.  The import clean-up comes last: when every service was
    generated and the output folder exists or was made, [goimports] is run
    once, over the output folder, and the run returns what [goimports]
    returns, an error included. *)
Theorem GenerateServices_reports_goimports (proj : Project) (h : Heap)
    (appPath : string) (prod : bool) (w w' : World) :
  generateAll proj h appPath prod w = (Ok tt, w') ->
  polycodeExists proj = true \/ madeDirs w' <> [] ->
  (GenerateServices proj h appPath prod w).1
  = match goimportsErr (filepathJoin appPath ".polycode") with
    | Some e => Err e
    | None => Ok tt
    end
  /\ goimported (GenerateServices proj h appPath prod w).2
     = goimported w' ++ [filepathJoin appPath ".polycode"].
Proof.
  intros Hg Hex. unfold GenerateServices, bindM. rewrite Hg.
  unfold cleanImports.
  assert ((polycodeExists proj || negb (bool_decide (madeDirs w' = [])))%bool
          = true) as ->.
  { destruct Hex as [-> | Hne]; [reflexivity|].
    rewrite bool_decide_false by done. apply orb_true_r. }
  unfold runGoImports. by destruct (goimportsErr _).
Qed.

(** *** The two variants of the parser *)

Lemma libParseFunc_of_parseFunc (sd : gmap string (list Field))
    (fn : FuncDecl) (r : option MethodInfo) :
  parseFunc sd fn = Ok r ->
  exists r', libParseFunc fn = Ok r'
             /\ (forall m, r = Some m -> r' = Some (forget m)).
Proof.
  unfold parseFunc, libParseFunc.
  destruct (fnName fn) as [|c rest]; [discriminate|].
  destruct (IsLower c).
  { intros [= <-]. exists None. split; [reflexivity | discriminate]. }
  destruct (validateFunctionParams fn) as [ctx| |]; try discriminate. simpl.
  destruct (Params (fnType fn)) as [params|]; [|discriminate].
  destruct (params !! 1%nat) as [p1|]; [|discriminate].
  destruct (resolveType (fieldType p1)) as [inp| |]; try discriminate. simpl.
  destruct (Results (fnType fn)) as [[|r0 rs]|]; try discriminate.
  destruct (resolveType (fieldType r0)) as [out| |]; try discriminate. simpl.
  destruct (nonEmpty inp.1); simpl.
  - destruct (nonEmpty out.1); intros [= <-]; eexists;
      (split; [reflexivity|]); [|discriminate].
    by intros m [= <-].
  - intros [= <-]. exists None. split; [reflexivity | discriminate].
Qed.

Lemma libParseDecls_of_parseDecls (sd : gmap string (list Field))
    (decls : list Decl) :
  forall acc acc' ms,
    parseDecls sd decls acc = Ok ms ->
    map forget acc `sublist_of` acc' ->
    exists ms', libParseDecls decls acc' = Ok ms'
                /\ map forget ms `sublist_of` ms'.
Proof.
  induction decls as [|d decls IH]; intros acc acc' ms; simpl.
  - intros [= <-] Hsub. eauto.
  - destruct d as [fn| |]; try apply IH.
    destruct (Recv fn); [apply IH|].
    intros (r & Hr & H)%bindO_Ok Hsub.
    apply libParseFunc_of_parseFunc in Hr as (r' & -> & Hrel). simpl.
    apply (IH _ _ _ H).
    destruct r as [m|]; simpl.
    + rewrite (Hrel m eq_refl). simpl. rewrite map_app.
      by apply sublist_app.
    + destruct r'; simpl; [by apply sublist_inserts_r | exact Hsub].
Qed.

Lemma libParseWalk_of_parseWalk (sd : gmap string (list Field))
    (entries : list WalkEntry) :
  forall st st' lst,
    parseWalk sd entries st = Ok st' ->
    map forget st.1 `sublist_of` lst.1 -> lst.2 = st.2 ->
    exists lst', libParseWalk entries lst = Ok lst'
                 /\ map forget st'.1 `sublist_of` lst'.1
                 /\ lst'.2 = st'.2.
Proof.
  induction entries as [|e entries IH]; intros st st' lst; simpl.
  - intros [= <-] Hsub Himp. eauto.
  - intros (st1 & Hv & H)%bindO_Ok Hsub Himp.
    unfold parseVisit in Hv. unfold libParseVisit.
    destruct (weErr e); [discriminate|].
    destruct (isSourceFile (weName e)).
    + destruct (weParse e) as [err|node]; [discriminate|].
      apply bindO_Ok in Hv as (ms & Hd & [= <-]).
      destruct (libParseDecls_of_parseDecls sd _ _ _ _ Hd Hsub)
        as (ms' & -> & Hsub').
      simpl. apply (IH _ _ _ H); simpl; [exact Hsub' | by rewrite Himp].
    + injection Hv as <-. simpl. by apply (IH _ _ _ H).
Qed.

(** X28.  The parser of [lib/service-gen.go], which resolves no output
    type, succeeds wherever the parser with schemas does, with the same
    imports, and its method list holds, in the same order, every method the
    other retains (name, input type, pointer flag and context flags alike);
    it may hold more, since it does not look at results. *)
Theorem lib_parser_retains_more (sd : gmap string (list Field))
    (entries : list WalkEntry) (ms : list MethodInfo) (imps : list string) :
  parseDir entries sd = Ok (ms, imps) ->
  exists ms', libParseDir entries = Ok (ms', imps)
              /\ map forget ms `sublist_of` ms'.
Proof.
  unfold parseDir, libParseDir.
  intros (st & Hw & [= <- <-])%bindO_Ok.
  destruct (libParseWalk_of_parseWalk sd entries ([], []) st ([], []) Hw)
    as (lst & -> & Hsub & Himp); [simpl; constructor | reflexivity|].
  simpl. rewrite Himp. eauto.
Qed.

End Generator.

(** ** The theorems at the sample inputs *)

Lemma schemas_attached_by_lookup_witness :
  parseDir asciiOnly sampleService sampleSchema
  = Ok ([sampleMethod], ["pkgA"; "pkgB"]%string)
  /\ (Forall (fun m =>
                (forall fs, sampleSchema !! InputType m = Some fs ->
                            InputSchema m = fs)
                /\ (sampleSchema !! InputType m = None -> InputSchema m = [])
                /\ (forall fs, sampleSchema !! OutputType m = Some fs ->
                               OutputSchema m = fs)
                /\ (sampleSchema !! OutputType m = None ->
                    OutputSchema m = [])) [sampleMethod]
      /\ (forall sd', isOk (parseDir asciiOnly sampleService sd') = true)).
Proof.
  split; [vm_compute; reflexivity|].
  apply (schemas_attached_by_lookup asciiOnly sampleSchema sampleService
           [sampleMethod] ["pkgA"; "pkgB"]%string).
  vm_compute; reflexivity.
Defined.


Lemma no_methods_no_artifacts_witness :
  parseDir asciiOnly helpersOnly ∅ = Ok ([], ["fmt"%string])
  /\ generateService asciiOnly asciiOnly sampleTemplate sampleYaml
       noError noError slashJoin "/app" helpersOnly "example.com/app"
       "util" ∅ true emptyWorld
     = (Ok tt, emptyWorld).
Proof.
  split; [vm_compute; reflexivity|].
  apply (no_methods_no_artifacts asciiOnly asciiOnly sampleTemplate
           sampleYaml noError noError slashJoin "/app" "example.com/app"
           "util" helpersOnly ∅ true ["fmt"%string] emptyWorld).
  vm_compute; reflexivity.
Defined.

Lemma regeneration_is_idempotent_witness :
  sameSource staleProject sampleProjectAgain
  /\ identNames (rootWalk staleProject) = true
  /\ identNames (rootWalk sampleProjectAgain) = true
  /\ GenerateServices asciiOnly asciiOnly sampleTemplate sampleYaml
       noError noError noError slashJoin staleProject sampleHeap
       "/app" true emptyWorld
     = (Ok tt, sampleWorld)
  /\ GenerateServices asciiOnly asciiOnly sampleTemplate sampleYaml
       noError noError noError slashJoin sampleProjectAgain laterHeap
       "/app" true emptyWorld
     = GenerateServices asciiOnly asciiOnly sampleTemplate sampleYaml
         noError noError noError slashJoin staleProject sampleHeap
         "/app" true emptyWorld.
Proof.
  assert (sameSource staleProject sampleProjectAgain) as Hsame.
  { split; [reflexivity|]. split; [reflexivity|]. split; [reflexivity|].
    apply walkAgain_keep.
    apply walkAgain_new; [reflexivity|].
    apply walkAgain_new; [reflexivity|].
    apply walkAgain_rewritten; [reflexivity..|].
    apply walkAgain_keep, walkAgain_nil. }
  split; [exact Hsame|]. do 3 (split; [vm_compute; reflexivity|]).
  apply (regeneration_is_idempotent asciiOnly asciiOnly sampleTemplate
           sampleYaml noError noError noError slashJoin staleProject
           sampleProjectAgain sampleHeap laterHeap "/app" true Hsame);
    vm_compute; reflexivity.
Defined.

(** *** The manifest, struct names and imports *)

Lemma getModuleName_first_module_line_witness :
  HasPrefix "module example.com/app" "module" = true
  /\ getModuleName noFields sampleManifest = Ok "example.com/app"%string.
Proof.
  split; [reflexivity|].
  apply (getModuleName_first_module_line noFields sampleManifest
           ["// the module"%string] ["go 1.21"%string]
           "module example.com/app" "module" "example.com/app" []).
  - reflexivity.
  - reflexivity.
  - constructor; [left; reflexivity | constructor].
  - reflexivity.
  - reflexivity.
Defined.

Lemma getModuleName_without_module_line_witness :
  openErr manifestWithoutModule = None
  /\ getModuleName noFields manifestWithoutModule
     = Err "module name not found in go.mod".
Proof.
  split; [reflexivity|].
  apply (getModuleName_without_module_line noFields manifestWithoutModule).
  - reflexivity.
  - constructor; [left; reflexivity|].
    constructor; [right; vm_compute; lia | constructor].
Defined.

Lemma getModuleName_is_a_field_witness :
  getModuleName noFields sampleManifest = Ok "example.com/app"%string
  /\ ("example.com/app"%string <> EmptyString
      /\ anyByte isAsciiSpace "example.com/app" = false
      /\ exists line, line ∈ scanned sampleManifest
                      /\ HasPrefix line "module" = true
                      /\ Fields noFields line !! 1%nat
                         = Some "example.com/app"%string).
Proof.
  split; [reflexivity|].
  apply (getModuleName_is_a_field noFields sampleManifest).
  - repeat constructor.
  - reflexivity.
Defined.

Lemma toPascalCase_drops_hyphens_witness :
  allASCII "order-processing" = true
  /\ (toPascalCase asciiOnly "order-processing"
      = pascalWalk true "order-processing"
      /\ containsByte "-"%char (toPascalCase asciiOnly "order-processing")
         = false
      /\ (String.length (toPascalCase asciiOnly "order-processing")
          + countByte "-"%char "order-processing"
          = String.length "order-processing")%nat).
Proof.
  split; [reflexivity|].
  apply (toPascalCase_drops_hyphens asciiOnly "order-processing").
  reflexivity.
Defined.

Lemma toPascalCase_fixes_its_results_witness :
  toPascalCase asciiOnly "order-processing" = "OrderProcessing"%string
  /\ toPascalCase asciiOnly (toPascalCase asciiOnly "order-processing")
     = toPascalCase asciiOnly "order-processing".
Proof.
  split; [reflexivity|].
  apply (toPascalCase_fixes_its_results asciiOnly "order-processing").
  reflexivity.
Defined.

(** *** The convention parser *)

Lemma sampleService_safe (fn : FuncDecl) :
  declaredIn sampleService fn -> safeFunc fn.
Proof.
  intros (e & file & He & Hp & Hd & _). unfold sampleService in He.
  apply elem_of_cons in He as [-> | He].
  - injection Hp as <-. simpl in Hd.
    apply list_elem_of_singleton in Hd. injection Hd as ->.
    exists "D"%char, "oThing"%string. split; [reflexivity|]. intros _. split.
    + intros params [= <-]. repeat constructor.
    + eexists _, _. split; reflexivity.
  - apply list_elem_of_singleton in He as ->.
    injection Hp as <-. simpl in Hd.
    apply list_elem_of_singleton in Hd. injection Hd as ->.
    exists "h"%char, "elper"%string. split; [reflexivity|]. discriminate.
Qed.

Lemma parseDir_does_not_panic_witness :
  isPanic (parseDir asciiOnly sampleService sampleSchema) = false.
Proof.
  apply (parseDir_does_not_panic asciiOnly sampleSchema sampleService).
  exact sampleService_safe.
Defined.

Lemma parseDir_fails_on_a_bad_file_witness :
  weParse brokenFile = inl "broken.go:1:1: expected 'package', found 'EOF'"
  /\ isOk (parseDir asciiOnly (sampleService ++ [brokenFile]) sampleSchema)
     = false.
Proof.
  split; [reflexivity|].
  apply (parseDir_fails_on_a_bad_file asciiOnly sampleSchema
           (sampleService ++ [brokenFile]) brokenFile).
  - apply elem_of_app. right. apply list_elem_of_here.
  - right. split; [reflexivity|]. eexists. reflexivity.
Defined.

Lemma parseDir_app_witness :
  parseDir asciiOnly [goFile "b.go" ["pkgA"%string] [FuncD fnHelper]]
    sampleSchema
  = Ok ([], ["pkgA"%string])
  /\ parseDir asciiOnly
       ([goFile "a.go" ["pkgA"; "pkgB"]%string [FuncD fnDoThing]]
        ++ [goFile "b.go" ["pkgA"%string] [FuncD fnHelper]]) sampleSchema
     = Ok ([sampleMethod] ++ [],
           ["pkgA"; "pkgB"]%string
           ++ filter (fun x => x ∉ ["pkgA"; "pkgB"]%string)
                ["pkgA"%string]).
Proof.
  split; [vm_compute; reflexivity|].
  apply (parseDir_app asciiOnly sampleSchema); vm_compute; reflexivity.
Defined.

Lemma parseDir_method_invariants_witness :
  parseDir asciiOnly sampleService sampleSchema
  = Ok ([sampleMethod], ["pkgA"; "pkgB"]%string)
  /\ Forall (fun m =>
               mName m = ToLower asciiOnly (OriginalName m)
               /\ (exists c rest, OriginalName m = String c rest
                                  /\ IsLower c = false)
               /\ containsByte "."%char (InputType m) = true
               /\ containsByte "."%char (OutputType m) = true)
       [sampleMethod].
Proof.
  split; [vm_compute; reflexivity|].
  apply (parseDir_method_invariants asciiOnly sampleSchema sampleService
           [sampleMethod] ["pkgA"; "pkgB"]%string).
  vm_compute; reflexivity.
Defined.

Lemma schemas_are_never_attached_witness :
  identNames (rootWalk sampleProject) = true
  /\ (parseDir asciiOnly sampleService
        (extractStructs sampleHeap (rootWalk sampleProject)).1
      = parseDir asciiOnly sampleService ∅
      /\ (forall ms imps,
            parseDir asciiOnly sampleService
              (extractStructs sampleHeap (rootWalk sampleProject)).1
            = Ok (ms, imps) ->
            Forall (fun m => InputSchema m = [] /\ OutputSchema m = []) ms)).
Proof.
  split; [reflexivity|].
  apply (schemas_are_never_attached asciiOnly sampleHeap
           (rootWalk sampleProject) sampleService).
  reflexivity.
Defined.

Lemma lib_parser_retains_more_witness :
  parseDir asciiOnly sampleService sampleSchema
  = Ok ([sampleMethod], ["pkgA"; "pkgB"]%string)
  /\ exists ms',
       libParseDir asciiOnly sampleService
       = Ok (ms', ["pkgA"; "pkgB"]%string)
       /\ map forget [sampleMethod] `sublist_of` ms'.
Proof.
  split; [vm_compute; reflexivity|].
  apply (lib_parser_retains_more asciiOnly sampleSchema sampleService
           [sampleMethod] ["pkgA"; "pkgB"]%string).
  vm_compute; reflexivity.
Defined.

(** *** The record extractor *)

Lemma extractStructs_stops_at_walk_error_witness :
  weErr unreadableDir = Some "open /app/private: permission denied"%string
  /\ extractStructs sampleHeap
       ([goFile "model.go" [] [typeDecl "Req" sampleFields]]
        ++ unreadableDir :: [goFile "zeta.go" [] [typeDecl "Zeta" []]])
     = ((extractStructs sampleHeap
           [goFile "model.go" [] [typeDecl "Req" sampleFields]]).1,
        Some "open /app/private: permission denied"%string).
Proof.
  split; [reflexivity|].
  apply (extractStructs_stops_at_walk_error sampleHeap).
  - repeat constructor.
  - reflexivity.
Defined.

Lemma structFields_of_shallow_types_witness :
  Forall (fun f => shallow (fieldType f) = true) sampleFields
  /\ structFields sampleHeap sampleFields
     = structFields laterHeap sampleFields.
Proof.
  assert (Forall (fun f => shallow (fieldType f) = true) sampleFields) as H
    by (repeat constructor).
  split; [exact H|].
  exact (structFields_of_shallow_types sampleHeap laterHeap sampleFields H).
Defined.

(** *** Artifacts *)

Lemma generateService_writes_two_artifacts_witness :
  parseDir asciiOnly sampleService sampleSchema
  = Ok ([sampleMethod], ["pkgA"; "pkgB"]%string)
  /\ generateService asciiOnly asciiOnly sampleTemplate sampleYaml noError
       noError slashJoin "/app" sampleService "example.com/app" "orders"
       sampleSchema true emptyWorld
     = (Ok tt,
        {| written := written emptyWorld
                      ++ [(adapterPath "/app" "orders",
                           "adapter Orders DoThing"%string);
                          (definitionPath slashJoin "/app" "orders",
                           "serviceName: orders string"%string)];
           madeDirs := madeDirs emptyWorld
                       ++ [adapterDir "/app";
                           definitionDir slashJoin "/app"];
           goimported := goimported emptyWorld |}).
Proof.
  split; [vm_compute; reflexivity|].
  apply (generateService_writes_two_artifacts asciiOnly asciiOnly
           sampleTemplate sampleYaml noError noError slashJoin
           "/app" "example.com/app" "orders" sampleService sampleSchema true
           sampleMethod [] ["pkgA"; "pkgB"]%string);
    vm_compute; reflexivity.
Defined.

Lemma generateService_render_failure_witness :
  parseDir asciiOnly sampleService sampleSchema
  = Ok ([sampleMethod], ["pkgA"; "pkgB"]%string)
  /\ generateService asciiOnly asciiOnly failingTemplate sampleYaml noError
       noError slashJoin "/app" sampleService "example.com/app" "orders"
       sampleSchema true emptyWorld
     = (Err "template: executing wrapper", emptyWorld).
Proof.
  split; [vm_compute; reflexivity|].
  apply (generateService_render_failure asciiOnly asciiOnly
           failingTemplate sampleYaml noError noError slashJoin
           "/app" "example.com/app" "orders" sampleService sampleSchema true
           sampleMethod [] ["pkgA"; "pkgB"]%string);
    vm_compute; reflexivity.
Defined.

Lemma generateService_marshal_failure_witness :
  parseDir asciiOnly sampleService sampleSchema
  = Ok ([sampleMethod], ["pkgA"; "pkgB"]%string)
  /\ generateService asciiOnly asciiOnly sampleTemplate failingYaml noError
       noError slashJoin "/app" sampleService "example.com/app" "orders"
       sampleSchema true emptyWorld
     = (Err "yaml: cannot marshal",
        {| written := written emptyWorld
                      ++ [(adapterPath "/app" "orders",
                           "adapter Orders DoThing"%string)];
           madeDirs := madeDirs emptyWorld
                       ++ [adapterDir "/app";
                           definitionDir slashJoin "/app"];
           goimported := goimported emptyWorld |}).
Proof.
  split; [vm_compute; reflexivity|].
  apply (generateService_marshal_failure asciiOnly asciiOnly
           sampleTemplate failingYaml noError noError slashJoin
           "/app" "example.com/app" "orders" sampleService sampleSchema true
           sampleMethod [] ["pkgA"; "pkgB"]%string);
    vm_compute; reflexivity.
Defined.

Lemma GenerateServices_fails_before_output_witness :
  isOk (moduleNameResult projectWithoutModule) = false
  /\ (isOk (GenerateServices asciiOnly asciiOnly sampleTemplate sampleYaml
              noError noError noError slashJoin projectWithoutModule
              sampleHeap "/app" true emptyWorld).1 = false
      /\ (GenerateServices asciiOnly asciiOnly sampleTemplate sampleYaml
            noError noError noError slashJoin projectWithoutModule
            sampleHeap "/app" true emptyWorld).2 = emptyWorld).
Proof.
  split; [reflexivity|].
  apply (GenerateServices_fails_before_output asciiOnly asciiOnly
           sampleTemplate sampleYaml noError noError noError slashJoin
           projectWithoutModule sampleHeap "/app" true emptyWorld).
  left. reflexivity.
Defined.

Lemma GenerateServices_reports_goimports_witness :
  generateAll asciiOnly asciiOnly sampleTemplate sampleYaml noError noError
    slashJoin sampleProject sampleHeap "/app" true emptyWorld
  = (Ok tt, generatedWorld)
  /\ (GenerateServices asciiOnly asciiOnly sampleTemplate sampleYaml noError
        noError goimportsMissing slashJoin sampleProject sampleHeap "/app"
        true emptyWorld).1
     = Err "exec: goimports: executable file not found in $PATH"
  /\ goimported
       (GenerateServices asciiOnly asciiOnly sampleTemplate sampleYaml
          noError noError goimportsMissing slashJoin sampleProject
          sampleHeap "/app" true emptyWorld).2
     = ["/app/.polycode"%string].
Proof.
  split; [vm_compute; reflexivity|].
  apply (GenerateServices_reports_goimports asciiOnly asciiOnly
           sampleTemplate sampleYaml noError noError goimportsMissing
           slashJoin sampleProject sampleHeap "/app" true emptyWorld
           generatedWorld).
  - vm_compute; reflexivity.
  - right. discriminate.
Defined.
